(** * geom::Vector2

    A shallow embedding of [inc/geom/Vector2.hpp]: the two-component vector
    template [geom::Vector2<Scalar>], its member operators, the free
    arithmetic and comparison operators and the geometric helpers
    ([length], [dot], [reflect], [normalize], [refract]).

    Scalars.  The header instantiates the template at six arithmetic types
    ([Vec2i], [Vec2u], [Vec2l], [Vec2ul], [Vec2f], [Vec2d]); [int] is the
    32-bit type, [std::int32_t].  An integer of
    width [w] is a [Z] and every operation writes its wrap-around out; a
    floating-point number is a [spec_float] of the Standard Library, whose
    operations are the IEEE 754 ones (round to nearest, ties to even) at an
    explicit precision.  Each floating-point operation is rounded once, to
    the format of its C++ type (no excess precision, no contraction of
    [a * b + c]).

    Where C++ leaves the behaviour undefined the model is total and picks
    what two's-complement hardware does: signed overflow wraps, an integer
    division by zero gives [0], and a floating-point value with no integer
    image converts to the wrapped truncation ([0] for NaN and infinities).
    No theorem below depends on those choices unless it says so.

    [VectorTraits.hpp], which the header includes, is not among the
    sources.  [VectorOpResult] on two scalar kinds and the primary template
    of [IsVector] follow the specification; what [VectorOpResult] makes of
    a [Vector2] argument is a parameter of the overload resolution of [*]
    and [/], and the statements about it hold for every value of the
    parameter. *)

From Stdlib Require Import ZArith QArith Qround Bool String List Lia.
From Stdlib Require Import Morphisms Setoid Ring.
From Stdlib Require Import Floats.SpecFloat.

Import ListNotations.
Local Open Scope Z_scope.

Module geom.

(** ** Scalar kinds *)

Inductive signedness := Signed | Unsigned.
Inductive int_width := W32 | W64.
Inductive float_format := Single | Double.

(** The arithmetic types the header is instantiated at. *)
Inductive kind :=
| Int (s : signedness) (w : int_width)
| Float (f : float_format).

Abbreviation int32_t := (Int Signed W32).
Abbreviation uint32_t := (Int Unsigned W32).
Abbreviation int64_t := (Int Signed W64).
Abbreviation uint64_t := (Int Unsigned W64).
Abbreviation float := (Float Single).
Abbreviation double := (Float Double).

(** [std::is_floating_point<T>::value]. *)
Definition is_floating_point (k : kind) : bool :=
  match k with
  | Float _ => true
  | Int _ _ => false
  end.

(** The values of a scalar kind. *)
Definition sem (k : kind) : Type :=
  match k with
  | Int _ _ => Z
  | Float _ => spec_float
  end.

Definition bits (w : int_width) : Z :=
  match w with
  | W32 => 32
  | W64 => 64
  end.

(** The representative of [z] in a [w]-bit integer type. *)
Definition wrap (s : signedness) (w : int_width) (z : Z) : Z :=
  match s with
  | Unsigned => z mod 2 ^ bits w
  | Signed => (z + 2 ^ (bits w - 1)) mod 2 ^ bits w - 2 ^ (bits w - 1)
  end.

Definition in_range (s : signedness) (w : int_width) (z : Z) : Prop :=
  match s with
  | Unsigned => 0 <= z < 2 ^ bits w
  | Signed => - 2 ^ (bits w - 1) <= z < 2 ^ (bits w - 1)
  end.

(** IEEE 754 binary32 and binary64. *)
Definition prec (f : float_format) : Z :=
  match f with
  | Single => 24
  | Double => 53
  end.

Definition emax (f : float_format) : Z :=
  match f with
  | Single => 128
  | Double => 1024
  end.

(** ** Built-in arithmetic at one kind *)

Definition add (k : kind) : sem k -> sem k -> sem k :=
  match k with
  | Int s w => fun a b => wrap s w (a + b)
  | Float f => SFadd (prec f) (emax f)
  end.

Definition sub (k : kind) : sem k -> sem k -> sem k :=
  match k with
  | Int s w => fun a b => wrap s w (a - b)
  | Float f => SFsub (prec f) (emax f)
  end.

Definition mul (k : kind) : sem k -> sem k -> sem k :=
  match k with
  | Int s w => fun a b => wrap s w (a * b)
  | Float f => SFmul (prec f) (emax f)
  end.

(** Integer division truncates toward zero. *)
Definition div (k : kind) : sem k -> sem k -> sem k :=
  match k with
  | Int s w => fun a b => wrap s w (Z.quot a b)
  | Float f => SFdiv (prec f) (emax f)
  end.

Definition neg (k : kind) : sem k -> sem k :=
  match k with
  | Int s w => fun a => wrap s w (- a)
  | Float _ => SFopp
  end.

Definition eqb (k : kind) : sem k -> sem k -> bool :=
  match k with
  | Int _ _ => Z.eqb
  | Float _ => SFeqb
  end.

Definition ltb (k : kind) : sem k -> sem k -> bool :=
  match k with
  | Int _ _ => Z.ltb
  | Float _ => SFltb
  end.

Definition leb (k : kind) : sem k -> sem k -> bool :=
  match k with
  | Int _ _ => Z.leb
  | Float _ => SFleb
  end.

(** ** Conversions *)

(** The integer part of a floating-point number: the fraction is dropped. *)
Definition SFtrunc (f : spec_float) : Z :=
  match f with
  | S754_finite s m e => cond_Zopp s (Z.shiftl (Zpos m) e)
  | _ => 0
  end.

(** Between the two floating-point formats: widening is exact, narrowing
    rounds to nearest. *)
Definition fconv (fa fb : float_format) (v : spec_float) : spec_float :=
  match fa, fb with
  | Single, Single | Double, Double => v
  | _, _ =>
      match v with
      | S754_finite s m e => binary_round (prec fb) (emax fb) s m e
      | _ => v
      end
  end.

Definition same_int (sa : signedness) (wa : int_width)
  (sb : signedness) (wb : int_width) : bool :=
  match sa, sb, wa, wb with
  | Signed, Signed, W32, W32 | Signed, Signed, W64, W64
  | Unsigned, Unsigned, W32, W32 | Unsigned, Unsigned, W64, W64 => true
  | _, _, _, _ => false
  end.

(** The standard conversion from kind [a] to kind [b]: an implicit
    conversion, an initialisation [x(source.x)] or a [static_cast].  A
    conversion to the same type copies the value. *)
Definition conv (a b : kind) : sem a -> sem b :=
  match a, b return sem a -> sem b with
  | Int sa wa, Int s w => fun z => if same_int sa wa s w then z else wrap s w z
  | Int _ _, Float f => fun z => binary_normalize (prec f) (emax f) z 0 false
  | Float _, Int s w => fun v => wrap s w (SFtrunc v)
  | Float fa, Float fb => fconv fa fb
  end.

(** The usual arithmetic conversions, which are also [std::common_type] on
    arithmetic types.  All six kinds have at least the rank of [int], so no
    integral promotion applies. *)
Definition common_type (a b : kind) : kind :=
  match a, b with
  | Float Double, _ | _, Float Double => Float Double
  | Float Single, _ | _, Float Single => Float Single
  | Int sa wa, Int sb wb =>
      match wa, wb with
      | W32, W64 => Int sb W64
      | W64, W32 => Int sa W64
      | _, _ =>
          match sa, sb with
          | Signed, Signed => Int Signed wa
          | _, _ => Int Unsigned wa
          end
      end
  end.

(** Modelled from the spec: [VectorOpResult<A, B>::type] is declared in
    [VectorTraits.hpp]; the result scalar kind of a binary operation
    follows the host language's usual numeric common-type promotion. *)
Definition VectorOpResult (a b : kind) : kind := common_type a b.

(** A built-in binary operator on operands of kinds [A] and [B]: both are
    converted to the common type and the operation is done there. *)
Definition arith (op : forall k, sem k -> sem k -> sem k)
  (A B : kind) (a : sem A) (b : sem B) : sem (common_type A B) :=
  op (common_type A B) (conv A (common_type A B) a) (conv B (common_type A B) b).

Definition compare (op : forall k, sem k -> sem k -> bool)
  (A B : kind) (a : sem A) (b : sem B) : bool :=
  op (common_type A B) (conv A (common_type A B) a) (conv B (common_type A B) b).

(** ** The structure *)

Record Vector2 (Scalar : kind) : Type :=
  mkVector2 { x : sem Scalar; y : sem Scalar }.

Arguments mkVector2 {Scalar} _ _.
Arguments x {Scalar} _.
Arguments y {Scalar} _.

(** [Vector2(const Scalar &x, const Scalar &y)] with arguments of another
    arithmetic type: each is converted to [Scalar]. *)
Definition Vector2_of (A Scalar : kind) (a b : sem A) : Vector2 Scalar :=
  mkVector2 (conv A Scalar a) (conv A Scalar b).

(** [Vector2() : x(0), y(0)]. *)
Definition Vector2_default (Scalar : kind) : Vector2 Scalar :=
  Vector2_of int32_t Scalar 0 0.

(** [template <typename Other> Vector2(const Vector2<Other> &source)]. *)
Definition Vector2_convert {Other : kind} (Scalar : kind)
  (source : Vector2 Other) : Vector2 Scalar :=
  mkVector2 (conv Other Scalar (x source)) (conv Other Scalar (y source)).

(** A member function that may write to [*this] takes the object and
    returns its result together with the object afterwards. *)
Record call (Scalar : kind) (A : Type) : Type :=
  mkCall { result : A; this_after : Vector2 Scalar }.

Arguments mkCall {Scalar A} _ _.
Arguments result {Scalar A} _.
Arguments this_after {Scalar A} _.

(** What a member returning [Vector2<Scalar> &] hands back: a reference to
    [*this] or to some other object. *)
Inductive reference (Scalar : kind) : Type :=
| ref_this
| ref_other (object : Vector2 Scalar).

Arguments ref_this {Scalar}.
Arguments ref_other {Scalar} _.


(** [template <typename Other> operator=(const Vector2<Other> &source)]. *)
Definition operator_assign {Scalar Other : kind}
  (this : Vector2 Scalar) (source : Vector2 Other)
  : call Scalar (reference Scalar) :=
  mkCall ref_this
    (mkVector2 (conv Other Scalar (x source)) (conv Other Scalar (y source))).

(** [Vector2<Scalar> operator-()]. *)
Definition operator_neg {Scalar : kind} (this : Vector2 Scalar)
  : call Scalar (Vector2 Scalar) :=
  mkCall (mkVector2 (neg Scalar (x this)) (neg Scalar (y this))) this.

(** ** Comparisons *)

Definition operator_eq {LType RType : kind}
  (lhs : Vector2 LType) (rhs : Vector2 RType) : bool :=
  compare eqb LType RType (x lhs) (x rhs)
  && compare eqb LType RType (y lhs) (y rhs).

Definition operator_ne {LType RType : kind}
  (lhs : Vector2 LType) (rhs : Vector2 RType) : bool :=
  negb (operator_eq lhs rhs).

Definition operator_gt {LType RType : kind}
  (lhs : Vector2 LType) (rhs : Vector2 RType) : bool :=
  compare ltb RType LType (x rhs) (x lhs)
  && compare ltb RType LType (y rhs) (y lhs).

Definition operator_ge {LType RType : kind}
  (lhs : Vector2 LType) (rhs : Vector2 RType) : bool :=
  compare leb RType LType (x rhs) (x lhs)
  && compare leb RType LType (y rhs) (y lhs).

Definition operator_lt {LType RType : kind}
  (lhs : Vector2 LType) (rhs : Vector2 RType) : bool :=
  compare ltb LType RType (x lhs) (x rhs)
  && compare ltb LType RType (y lhs) (y rhs).

Definition operator_le {LType RType : kind}
  (lhs : Vector2 LType) (rhs : Vector2 RType) : bool :=
  compare leb LType RType (x lhs) (x rhs)
  && compare leb LType RType (y lhs) (y rhs).

(** ** Compound and free arithmetic operators *)

(** The body shared by the four vector-vector operators:
    [Vector2<Result>(lhs.x op rhs.x, lhs.y op rhs.y)]. *)
Definition piecewise (op : forall k, sem k -> sem k -> sem k)
  {RhsType LhsType : kind} (lhs : Vector2 LhsType) (rhs : Vector2 RhsType)
  : Vector2 (VectorOpResult RhsType LhsType) :=
  Vector2_of (common_type LhsType RhsType) (VectorOpResult RhsType LhsType)
    (arith op LhsType RhsType (x lhs) (x rhs))
    (arith op LhsType RhsType (y lhs) (y rhs)).

Definition operator_plus {RhsType LhsType : kind}
  (lhs : Vector2 LhsType) (rhs : Vector2 RhsType)
  : Vector2 (VectorOpResult RhsType LhsType) :=
  piecewise add lhs rhs.

Definition operator_minus {RhsType LhsType : kind}
  (lhs : Vector2 LhsType) (rhs : Vector2 RhsType)
  : Vector2 (VectorOpResult RhsType LhsType) :=
  piecewise sub lhs rhs.

Definition operator_mul {RhsType LhsType : kind}
  (lhs : Vector2 LhsType) (rhs : Vector2 RhsType)
  : Vector2 (VectorOpResult RhsType LhsType) :=
  piecewise mul lhs rhs.

Definition operator_div {RhsType LhsType : kind}
  (lhs : Vector2 LhsType) (rhs : Vector2 RhsType)
  : Vector2 (VectorOpResult RhsType LhsType) :=
  piecewise div lhs rhs.

(** [operator*(const Vector2<LhsType> &lhs, const RhsType &rhs)] at a scalar
    [RhsType]: [Vector2<Result>(lhs.x * rhs, lhs.y * rhs)]. *)
Definition operator_mul_scalar {RhsType LhsType : kind}
  (lhs : Vector2 LhsType) (rhs : sem RhsType)
  : Vector2 (VectorOpResult RhsType LhsType) :=
  Vector2_of (common_type LhsType RhsType) (VectorOpResult RhsType LhsType)
    (arith mul LhsType RhsType (x lhs) rhs)
    (arith mul LhsType RhsType (y lhs) rhs).

(** [operator*(const LhsType &lhs, const Vector2<RhsType> &rhs)] at a scalar
    [LhsType]: [Vector2<Result>(rhs.x * lhs, rhs.y * lhs)]. *)
Definition scalar_operator_mul {RhsType LhsType : kind}
  (lhs : sem LhsType) (rhs : Vector2 RhsType)
  : Vector2 (VectorOpResult RhsType LhsType) :=
  Vector2_of (common_type RhsType LhsType) (VectorOpResult RhsType LhsType)
    (arith mul RhsType LhsType (x rhs) lhs)
    (arith mul RhsType LhsType (y rhs) lhs).

(** [operator/(const Vector2<LhsType> &lhs, const RhsType &rhs)] at a scalar
    [RhsType]: [Vector2<Result>(lhs.x / rhs, lhs.y / rhs)]. *)
Definition operator_div_scalar {RhsType LhsType : kind}
  (lhs : Vector2 LhsType) (rhs : sem RhsType)
  : Vector2 (VectorOpResult RhsType LhsType) :=
  Vector2_of (common_type LhsType RhsType) (VectorOpResult RhsType LhsType)
    (arith div LhsType RhsType (x lhs) rhs)
    (arith div LhsType RhsType (y lhs) rhs).

(** [operator+=]: [return *this = *this + rhs;]. *)
Definition operator_plus_assign {Scalar RhsType : kind}
  (this : Vector2 Scalar) (rhs : Vector2 RhsType)
  : call Scalar (reference Scalar) :=
  operator_assign this (operator_plus this rhs).

(** [operator-=]: [return *this = *this - rhs;]. *)
Definition operator_minus_assign {Scalar RhsType : kind}
  (this : Vector2 Scalar) (rhs : Vector2 RhsType)
  : call Scalar (reference Scalar) :=
  operator_assign this (operator_minus this rhs).

(** ** Geometry *)

(** The result type of [std::sqrt]: [float] for [float], [double] for
    [double] and for every integer type. *)
Definition sqrt_kind (k : kind) : kind :=
  match k with
  | Float f => Float f
  | Int _ _ => double
  end.

Definition std_sqrt (k : kind) : sem k -> sem (sqrt_kind k) :=
  match k return sem k -> sem (sqrt_kind k) with
  | Float f => SFsqrt (prec f) (emax f)
  | Int s w => fun z => SFsqrt (prec Double) (emax Double) (conv (Int s w) double z)
  end.

(** [template <typename Scalar> double length(const Vector2<Scalar> &v)]:
    [std::sqrt((double)(v.x * v.x + v.y * v.y))]. *)
Definition length_template {Scalar : kind} (v : Vector2 Scalar) : sem double :=
  std_sqrt double
    (conv (common_type (common_type Scalar Scalar) (common_type Scalar Scalar)) double
       (arith add (common_type Scalar Scalar) (common_type Scalar Scalar)
          (arith mul Scalar Scalar (x v) (x v))
          (arith mul Scalar Scalar (y v) (y v)))).

(** [inline float length(const Vector2<float> &f)]:
    [std::sqrt(f.x * f.x + f.y * f.y)]. *)
Definition length_float (f : Vector2 float) : sem float :=
  std_sqrt float
    (arith add float float
       (arith mul float float (x f) (x f))
       (arith mul float float (y f) (y f))).

(** A call [length(v)]: the non-template overload is the better match for a
    [Vector2<float>], the template is the only candidate otherwise. *)
Definition length_kind (Scalar : kind) : kind :=
  match Scalar with
  | Float Single => float
  | _ => double
  end.

Definition length {Scalar : kind} : Vector2 Scalar -> sem (length_kind Scalar) :=
  match Scalar return Vector2 Scalar -> sem (length_kind Scalar) with
  | Float Single => length_float
  | Float Double => @length_template double
  | Int s w => @length_template (Int s w)
  end.

(** [dot]: [lhs.x * rhs.x + lhs.y * rhs.y], returned as [Result]. *)
Definition dot {RhsType LhsType : kind}
  (lhs : Vector2 LhsType) (rhs : Vector2 RhsType)
  : sem (VectorOpResult RhsType LhsType) :=
  conv (common_type (common_type LhsType RhsType) (common_type LhsType RhsType))
    (VectorOpResult RhsType LhsType)
    (arith add (common_type LhsType RhsType) (common_type LhsType RhsType)
       (arith mul LhsType RhsType (x lhs) (x rhs))
       (arith mul LhsType RhsType (y lhs) (y rhs))).

(** [reflect]: [i(vec)], [n(normal)] in the result kind, then
    [i - ((2 * dot(i, n)) * n)]. *)
Definition reflect {rtype ltype : kind}
  (vec : Vector2 ltype) (normal : Vector2 rtype)
  : Vector2 (VectorOpResult rtype ltype) :=
  let Result := VectorOpResult rtype ltype in
  let i : Vector2 Result := Vector2_convert Result vec in
  let n : Vector2 Result := Vector2_convert Result normal in
  Vector2_convert Result
    (operator_minus i
       (scalar_operator_mul
          (arith mul int32_t (VectorOpResult Result Result) 2 (dot i n)) n)).

(** [template <typename IntegralType, typename RType = double> normalize]:
    [return source / length(source);], converted to [Vector2<RType>]. *)
Definition normalize_template {IntegralType : kind} (RType : kind)
  (source : Vector2 IntegralType) : Vector2 RType :=
  Vector2_convert RType (operator_div_scalar source (length source)).

(** [inline Vector2<float> normalize(const Vector2<float> &source)]. *)
Definition normalize_float (source : Vector2 float) : Vector2 float :=
  Vector2_convert float (operator_div_scalar source (length source)).

(** A call [normalize(v)] with no explicit template argument. *)
Definition normalize_kind (Scalar : kind) : kind :=
  match Scalar with
  | Float Single => float
  | _ => double
  end.

Definition normalize {Scalar : kind}
  : Vector2 Scalar -> Vector2 (normalize_kind Scalar) :=
  match Scalar return Vector2 Scalar -> Vector2 (normalize_kind Scalar) with
  | Float Single => normalize_float
  | Float Double => @normalize_template double double
  | Int s w => @normalize_template (Int s w) double
  end.

(** ** Static checks *)

(** What compiling a call or instantiating a template yields. *)
Inductive compiled (A : Type) : Type :=
| Compiled (a : A)
| static_assert_failed (message : string)
| no_viable_function
| ambiguous_call.

Arguments Compiled {A} _.
Arguments static_assert_failed {A} _.
Arguments no_viable_function {A}.
Arguments ambiguous_call {A}.

Definition rejected {A : Type} (c : compiled A) : bool :=
  match c with
  | Compiled _ => false
  | _ => true
  end.

(** The literals [1.0] and [0.0], of type [double]. *)
Definition one : sem double :=
  Eval cbv in binary_normalize (prec Double) (emax Double) 1 0 false.

Definition zero : sem double := S754_zero false.

(** [std::common_type<FType, VType1, VType2>::type]. *)
Definition common_type3 (a b c : kind) : kind :=
  common_type (common_type a b) c.

(** [refract]. *)
Definition refract {VType1 VType2 FType : kind}
  (i : Vector2 VType1) (n : Vector2 VType2) (eta : sem FType)
  : compiled (Vector2 (common_type3 FType VType1 VType2)) :=
  let R := common_type3 FType VType1 VType2 in
  if is_floating_point FType then
    let dot_ni : sem R := conv (VectorOpResult VType1 VType2) R (dot n i) in
    let k : sem R :=
      conv _ R
        (arith sub double _ one
           (arith mul _ _ (arith mul FType FType eta eta)
              (arith sub double _ one (arith mul R R dot_ni dot_ni)))) in
    if compare ltb R double k zero then
      Compiled (Vector2_of double R zero zero)
    else
      Compiled
        (Vector2_convert R
           (operator_minus (scalar_operator_mul eta i)
              (scalar_operator_mul
                 (arith add _ _ (arith mul FType R eta dot_ni) (std_sqrt R k))
                 n)))
  else
    static_assert_failed "The type of a refraction index must be floating point".

(** ** Template arguments that are not scalars *)

(** What a template parameter such as [RhsType] in
    [operator*(const Vector2<LhsType> &, const RhsType &)] can be deduced
    to: an arithmetic type or a [Vector2]. *)
Inductive type :=
| scalar_t (k : kind)
| Vector2_t (k : kind).

Definition object (t : type) : Type :=
  match t with
  | scalar_t k => sem k
  | Vector2_t k => Vector2 k
  end.

(** An expression with its static type. *)
Record operand : Type := mkOperand { type_of : type; value_of : object type_of }.

Definition scalar_operand {k : kind} (s : sem k) : operand :=
  mkOperand (scalar_t k) s.

Definition vector_operand {k : kind} (v : Vector2 k) : operand :=
  mkOperand (Vector2_t k) v.

(** Modelled from the spec: the primary template of [IsVector<T>] is
    declared in [VectorTraits.hpp]; a scalar kind is not a vector kind.  The
    case of [Vector2<T>] is the specialisation to [std::true_type] at the
    end of the header. *)
Definition IsVector (t : type) : bool :=
  match t with
  | Vector2_t _ => true
  | scalar_t _ => false
  end.

(** ** Overload resolution *)

(** The three function templates named [operator*]; [operator/] has the
    first two. *)
Inductive overload :=
| piecewise_overload
| vector_scalar_overload
| scalar_vector_overload.

Definition overload_eqb (o o' : overload) : bool :=
  match o, o' with
  | piecewise_overload, piecewise_overload
  | vector_scalar_overload, vector_scalar_overload
  | scalar_vector_overload, scalar_vector_overload => true
  | _, _ => false
  end.

(** Partial ordering of the templates: the piecewise one, both of whose
    parameters are [const Vector2<...> &], is more specialised than each
    scalar one, where one parameter is a bare [const T &]; the two scalar
    templates are not ordered. *)
Definition more_specialized (o o' : overload) : bool :=
  match o, o' with
  | piecewise_overload, vector_scalar_overload
  | piecewise_overload, scalar_vector_overload => true
  | _, _ => false
  end.

Inductive resolution :=
| selects (o : overload)
| no_match
| ambiguous.

(** The best viable function among candidates that all bind their arguments
    without a conversion, as the candidates of these operators do: the one
    that is more specialised than every other. *)
Definition best_viable (candidates : list overload) : resolution :=
  match candidates with
  | [] => no_match
  | _ =>
      match
        filter
          (fun o =>
             forallb (fun o' => overload_eqb o o' || more_specialized o o')
               candidates)
          candidates
      with
      | [o] => selects o
      | _ => ambiguous
      end
  end.

Definition mul_overloads : list overload :=
  [piecewise_overload; vector_scalar_overload; scalar_vector_overload].

Definition div_overloads : list overload :=
  [piecewise_overload; vector_scalar_overload].

Section VectorTraits.

(** [VectorTraits.hpp], which declares [VectorOpResult], is not among the
    sources.  Whether [VectorOpResult<A, B>] has a member [type] when [A] or
    [B] is a [Vector2] type is a parameter of the embedding: where it has
    none, substituting the default argument [Result] fails and the template
    is no candidate.  The specification lists the piecewise product and
    quotient of two vectors among the operations, so the substitution is
    taken never to be an error of its own, which would make every [a * b]
    on two vectors ill-formed. *)
Variable has_member_type : type -> type -> bool.

(** Whether [typename VectorOpResult<A, B>::type] names a type; for two
    scalar kinds it is their promoted kind. *)
Definition VectorOpResult_at (A B : type) : bool :=
  match A, B with
  | scalar_t _, scalar_t _ => true
  | _, _ => has_member_type A B
  end.

(** Template argument deduction for operands of types [A] and [B]: a
    parameter [const Vector2<T> &] takes a [Vector2] only, a parameter
    [const T &] takes any type, and the default argument
    [Result = typename VectorOpResult<RhsType, LhsType>::type] must name a
    type. *)
Definition deduces (o : overload) (A B : type) : bool :=
  match o, A, B with
  | piecewise_overload, Vector2_t LhsType, Vector2_t RhsType =>
      VectorOpResult_at (scalar_t RhsType) (scalar_t LhsType)
  | vector_scalar_overload, Vector2_t LhsType, RhsType =>
      VectorOpResult_at RhsType (scalar_t LhsType)
  | scalar_vector_overload, LhsType, Vector2_t RhsType =>
      VectorOpResult_at (scalar_t RhsType) LhsType
  | _, _, _ => false
  end.

(** [operator*(const Vector2<LhsType> &lhs, const RhsType &rhs)] instantiated
    at any [RhsType]: once [Result] names a type the body is compiled, and
    its [static_assert] comes first.  A [Vector2] that passed the assertion
    would make [lhs.x * rhs] a vector, which no constructor of
    [Vector2<Result>] takes. *)
Definition operator_mul_scalar_at {LhsType : kind} (RhsType : type)
  (lhs : Vector2 LhsType) : object RhsType -> compiled operand :=
  if VectorOpResult_at RhsType (scalar_t LhsType) then
    if IsVector RhsType then
      fun _ => static_assert_failed "Multiplication not defined for the given types"
    else
      match RhsType return object RhsType -> compiled operand with
      | scalar_t k => fun rhs => Compiled (vector_operand (operator_mul_scalar lhs rhs))
      | Vector2_t _ => fun _ => no_viable_function
      end
  else
    fun _ => no_viable_function.

(** [operator*(const LhsType &lhs, const Vector2<RhsType> &rhs)] instantiated
    at any [LhsType]. *)
Definition scalar_operator_mul_at {RhsType : kind} (LhsType : type)
  (rhs : Vector2 RhsType) : object LhsType -> compiled operand :=
  if VectorOpResult_at (scalar_t RhsType) LhsType then
    if IsVector LhsType then
      fun _ => static_assert_failed "Multiplication not defined for the given types"
    else
      match LhsType return object LhsType -> compiled operand with
      | scalar_t k => fun lhs => Compiled (vector_operand (scalar_operator_mul lhs rhs))
      | Vector2_t _ => fun _ => no_viable_function
      end
  else
    fun _ => no_viable_function.

(** [operator/(const Vector2<LhsType> &lhs, const RhsType &rhs)] instantiated
    at any [RhsType]. *)
Definition operator_div_scalar_at {LhsType : kind} (RhsType : type)
  (lhs : Vector2 LhsType) : object RhsType -> compiled operand :=
  if VectorOpResult_at RhsType (scalar_t LhsType) then
    if IsVector RhsType then
      fun _ => static_assert_failed "Division not defined for the given types"
    else
      match RhsType return object RhsType -> compiled operand with
      | scalar_t k => fun rhs => Compiled (vector_operand (operator_div_scalar lhs rhs))
      | Vector2_t _ => fun _ => no_viable_function
      end
  else
    fun _ => no_viable_function.

(** A call of one [operator*] template on the operands [a] and [b]. *)
Definition call_mul (o : overload) (a b : operand) : compiled operand :=
  match o, a, b with
  | piecewise_overload, mkOperand (Vector2_t L) lhs, mkOperand (Vector2_t R) rhs =>
      Compiled (vector_operand (operator_mul (LhsType := L) (RhsType := R) lhs rhs))
  | vector_scalar_overload, mkOperand (Vector2_t L) lhs, mkOperand RhsType rhs =>
      operator_mul_scalar_at (LhsType := L) RhsType lhs rhs
  | scalar_vector_overload, mkOperand LhsType lhs, mkOperand (Vector2_t R) rhs =>
      scalar_operator_mul_at (RhsType := R) LhsType rhs lhs
  | _, _, _ => no_viable_function
  end.

(** A call of one [operator/] template; there is no template dividing a
    scalar by a vector. *)
Definition call_div (o : overload) (a b : operand) : compiled operand :=
  match o, a, b with
  | piecewise_overload, mkOperand (Vector2_t L) lhs, mkOperand (Vector2_t R) rhs =>
      Compiled (vector_operand (operator_div (LhsType := L) (RhsType := R) lhs rhs))
  | vector_scalar_overload, mkOperand (Vector2_t L) lhs, mkOperand RhsType rhs =>
      operator_div_scalar_at (LhsType := L) RhsType lhs rhs
  | _, _, _ => no_viable_function
  end.

(** An operator expression on [a] and [b]: the built-in operator when both
    are scalars; otherwise the templates that deduce are the candidates and
    the best viable one is called. *)
Definition operator_expr
  (builtin : forall L R : kind, sem L -> sem R -> sem (common_type L R))
  (overloads : list overload)
  (invoke : overload -> operand -> operand -> compiled operand)
  (a b : operand) : compiled operand :=
  match a, b with
  | mkOperand (scalar_t L) lhs, mkOperand (scalar_t R) rhs =>
      Compiled (scalar_operand (builtin L R lhs rhs))
  | _, _ =>
      match
        best_viable
          (filter (fun o => deduces o (type_of a) (type_of b)) overloads)
      with
      | selects o => invoke o a b
      | no_match => no_viable_function
      | ambiguous => ambiguous_call
      end
  end.

(** The expression [a * b]. *)
Definition mul_expr (a b : operand) : compiled operand :=
  operator_expr (arith mul) mul_overloads call_mul a b.

(** The expression [a / b]. *)
Definition div_expr (a b : operand) : compiled operand :=
  operator_expr (arith div) div_overloads call_div a b.

(** [*this = e] for the value of a compound expression [e]: only a
    [Vector2] can be assigned. *)
Definition assign_expr {Scalar : kind} (this : Vector2 Scalar)
  (e : compiled operand)
  : compiled (call Scalar (reference Scalar)) :=
  match e with
  | Compiled (mkOperand (Vector2_t k) v) =>
      Compiled (operator_assign (Other := k) this v)
  | Compiled (mkOperand (scalar_t _) _) => no_viable_function
  | static_assert_failed message => static_assert_failed message
  | no_viable_function => no_viable_function
  | ambiguous_call => ambiguous_call
  end.

(** [template <typename RhsType> operator*=(const RhsType &rhs)]:
    [return *this = *this * rhs;]. *)
Definition operator_mul_assign {Scalar : kind}
  (this : Vector2 Scalar) (rhs : operand)
  : compiled (call Scalar (reference Scalar)) :=
  assign_expr this (mul_expr (vector_operand this) rhs).

(** [template <typename RhsType> operator/=(const RhsType &rhs)]:
    [return *this = *this / rhs;]. *)
Definition operator_div_assign {Scalar : kind}
  (this : Vector2 Scalar) (rhs : operand)
  : compiled (call Scalar (reference Scalar)) :=
  assign_expr this (div_expr (vector_operand this) rhs).

End VectorTraits.

(** ** Exact values

    What the floating-point conversions are measured against. *)

(** The rational number a floating-point value stands for ([0] for NaN and
    the infinities). *)
Definition SF2Q (f : spec_float) : Q :=
  match f with
  | S754_finite s m (Zneg p) => Qmake (cond_Zopp s (Zpos m)) (2 ^ p)
  | S754_finite s m e => inject_Z (cond_Zopp s (Zpos m * 2 ^ e))
  | _ => 0%Q
  end.

(** Truncation toward zero: the floor of a non-negative rational, the
    ceiling of a negative one. *)
Definition Qtrunc (q : Q) : Z :=
  if Qle_bool 0 q then Qfloor q else Qceiling q.

Definition is_finite (f : spec_float) : bool :=
  match f with
  | S754_finite _ _ _ | S754_zero _ => true
  | _ => false
  end.

(** The literals [1.1] and [2.2]: the doubles nearest to 11/10 and 22/10. *)
Definition double_1_1 : sem double :=
  Eval vm_compute in
    div double (conv int32_t double 11) (conv int32_t double 10).

Definition double_2_2 : sem double :=
  Eval vm_compute in
    div double (conv int32_t double 22) (conv int32_t double 10).

(** [length] as its comment in the header documents it ("Any type vector
    which isn't a float or double vector is first converted to a double
    vector"): the components are converted to [double], then squared and
    summed. *)
Definition length_as_documented {Scalar : kind} (v : Vector2 Scalar)
  : sem double :=
  let dx := conv Scalar double (x v) in
  let dy := conv Scalar double (y v) in
  std_sqrt double (add double (mul double dx dx) (mul double dy dy)).

(** [refract] as the specification words it: [k] is computed "in the
    common result kind" [R], that is, with every operand converted to [R]
    and every operation done there; the result is the zero vector when
    [k < 0] and [eta * i - (eta * dot(n, i) + sqrt(k)) * n] otherwise. *)
Definition k_in_result_kind {VType1 VType2 FType : kind}
  (i : Vector2 VType1) (n : Vector2 VType2) (eta : sem FType)
  : sem (common_type3 FType VType1 VType2) :=
  let R := common_type3 FType VType1 VType2 in
  let one_R := conv double R one in
  let eta_R := conv FType R eta in
  let dot_ni := conv (VectorOpResult VType1 VType2) R (dot n i) in
  sub R one_R (mul R (mul R eta_R eta_R) (sub R one_R (mul R dot_ni dot_ni))).

Definition refract_as_specified {VType1 VType2 FType : kind}
  (i : Vector2 VType1) (n : Vector2 VType2) (eta : sem FType)
  : Vector2 (common_type3 FType VType1 VType2) :=
  let R := common_type3 FType VType1 VType2 in
  let eta_R := conv FType R eta in
  let dot_ni := conv (VectorOpResult VType1 VType2) R (dot n i) in
  let k := k_in_result_kind i n eta in
  let s :=
    add R (mul R eta_R dot_ni) (conv (sqrt_kind R) R (std_sqrt R k)) in
  if ltb R k (conv double R zero) then Vector2_of double R zero zero
  else
    mkVector2
      (sub R (mul R eta_R (conv VType1 R (x i))) (mul R s (conv VType2 R (x n))))
      (sub R (mul R eta_R (conv VType1 R (y i))) (mul R s (conv VType2 R (y n)))).

(** A ray close to the critical angle, in single precision: the incident
    vector [(0x1.d51e26p-2, 0.5)], the normal [(1, 0)] and the index
    [1.125]. *)
Definition grazing_incident : Vector2 float :=
  @mkVector2 float (S754_finite false 15372051 (-25))
    (S754_finite false 8388608 (-24)).

Definition grazing_normal : Vector2 float :=
  @mkVector2 float (S754_finite false 8388608 (-23)) (S754_zero false).

Definition grazing_index : sem float := S754_finite false 9437184 (-23).

(** ** Vocabulary of the further properties *)

(** A value the kind can hold: an integer within the bounds of its type;
    any floating-point datum. *)
Definition representable (k : kind) : sem k -> Prop :=
  match k with
  | Int s w => in_range s w
  | Float _ => fun _ => True
  end.

Definition is_nan (v : spec_float) : bool :=
  match v with
  | S754_nan => true
  | _ => false
  end.

(** A vector with a NaN component; integer vectors have none. *)
Definition has_nan (k : kind) : Vector2 k -> bool :=
  match k return Vector2 k -> bool with
  | Int _ _ => fun _ => false
  | Float _ => fun v => is_nan (x v) || is_nan (y v)
  end.

Definition sign_bit (v : spec_float) : bool :=
  match v with
  | S754_zero s | S754_infinity s | S754_finite s _ _ => s
  | S754_nan => false
  end.

(** The IEEE 754 quotient of [v] by a zero of sign [sz]. *)
Definition divided_by_zero (sz : bool) (v : spec_float) : spec_float :=
  match v with
  | S754_finite s _ _ | S754_infinity s => S754_infinity (xorb s sz)
  | _ => S754_nan
  end.

(** The datum of a value of a floating-point kind. *)
Definition float_value (k : kind) : sem k -> spec_float :=
  match k with
  | Float _ => fun v => v
  | Int _ _ => fun _ => S754_nan
  end.

(** The single-precision vector [(2^-100, 0)], whose squared length
    underflows. *)
Definition tiny_vector : Vector2 float :=
  @mkVector2 float (S754_finite false 8388608 (-123)) (S754_zero false).

(** Congruence modulo [M], as a relation to rewrite with. *)
Inductive congruent (M a b : Z) : Prop :=
| congruent_intro (H : a mod M = b mod M).

(** * Properties *)

(** ** Kinds and conversions *)

Ltac each_kind k := destruct k as [[] []|[]].

Lemma common_type_idem (k : kind) : common_type k k = k.
Proof. each_kind k; reflexivity. Qed.

Lemma common_type_comm (a b : kind) : common_type a b = common_type b a.
Proof. each_kind a; each_kind b; reflexivity. Qed.

Lemma conv_same (k : kind) (v : sem k) : conv k k v = v.
Proof. each_kind k; reflexivity. Qed.

Lemma wrap_in_range (s : signedness) (w : int_width) (z : Z) :
  in_range s w (wrap s w z).
Proof.
  destruct s, w; unfold in_range, wrap, bits;
    match goal with
    | |- context [?a mod ?m] =>
        let H := fresh in
        assert (H : 0 <= a mod m < m) by (apply Z.mod_pos_bound; reflexivity);
        change (64 - 1) with 63 in *; change (32 - 1) with 31 in *;
        change (2 ^ 64) with (2 * 2 ^ 63) in *;
        change (2 ^ 32) with (2 * 2 ^ 31) in *; lia
    end.
Qed.

Lemma wrap_small (s : signedness) (w : int_width) (z : Z) :
  in_range s w z -> wrap s w z = z.
Proof.
  destruct s, w; unfold in_range, wrap, bits; intros H.
  - change (32 - 1) with 31 in *.
    rewrite Z.mod_small by (change (2 ^ 32) with (2 * 2 ^ 31); lia). lia.
  - change (64 - 1) with 63 in *.
    rewrite Z.mod_small by (change (2 ^ 64) with (2 * 2 ^ 63); lia). lia.
  - apply Z.mod_small; exact H.
  - apply Z.mod_small; exact H.
Qed.

Lemma wrap_idem (s : signedness) (w : int_width) (z : Z) :
  wrap s w (wrap s w z) = wrap s w z.
Proof. apply wrap_small, wrap_in_range. Qed.

Lemma wrap_mod (s : signedness) (w : int_width) (z : Z) :
  wrap s w z mod 2 ^ bits w = z mod 2 ^ bits w.
Proof.
  destruct s; unfold wrap.
  - rewrite Zminus_mod_idemp_l. f_equal. lia.
  - apply Z.mod_mod. destruct w; discriminate.
Qed.

Lemma wrap_congr (s : signedness) (w : int_width) (a b : Z) :
  a mod 2 ^ bits w = b mod 2 ^ bits w -> wrap s w a = wrap s w b.
Proof.
  intros H. destruct s; unfold wrap.
  - rewrite <- (Zplus_mod_idemp_l a), <- (Zplus_mod_idemp_l b), H. reflexivity.
  - exact H.
Qed.

(** ** Comparisons *)

(** C7.  The vectors [(1,5)] and [(5,1)], at any two scalar kinds, are
    neither greater, nor less, nor equal: [>], [<] and [==] ask both
    components to satisfy the relation, so the comparisons order vectors
    only partially. *)
Theorem comparisons_are_partial (LType RType : kind) :
  let a := Vector2_of int32_t LType 1 5 in
  let b := Vector2_of int32_t RType 5 1 in
  operator_gt a b = false /\ operator_lt a b = false /\ operator_eq a b = false.
Proof.
  each_kind LType; each_kind RType; vm_compute; repeat split.
Qed.

(** ** Unary minus *)

(** C10.  [-v] returns the vector of the negated components and leaves [v]
    as it was.  Floating-point components change sign.  A component [c] of
    an unsigned kind of width [w] becomes [(- c) mod 2 ^ w], so
    [-Vector2<uint32_t>(1, 0)] is [(2 ^ 32 - 1, 0)].  A component [c] of a
    signed kind becomes [- c], the one value without a negative in the kind
    (the least one, which C++ leaves undefined) being kept by the
    two's-complement reading: [-Vector2<int>(1, -2)] is [(-1, 2)] and
    [-Vector2<double>(1.5, -0.0)] is [(-1.5, +0.0)]. *)
Theorem operator_neg_spec :
  (forall (Scalar : kind) (v : Vector2 Scalar),
      result (operator_neg v) = mkVector2 (neg Scalar (x v)) (neg Scalar (y v))
      /\ this_after (operator_neg v) = v)
  /\ (forall (f : float_format) (v : Vector2 (Float f)),
         result (operator_neg v) = @mkVector2 (Float f) (SFopp (x v)) (SFopp (y v)))
  /\ (forall (w : int_width) (v : Vector2 (Int Unsigned w)),
         x (result (operator_neg v)) = (- x v) mod 2 ^ bits w
         /\ y (result (operator_neg v)) = (- y v) mod 2 ^ bits w
         /\ this_after (operator_neg v) = v)
  /\ result (operator_neg (@mkVector2 uint32_t 1 0))
     = @mkVector2 uint32_t (2 ^ 32 - 1) 0
  /\ (forall (w : int_width) (v : Vector2 (Int Signed w)),
         (- 2 ^ (bits w - 1) < x v < 2 ^ (bits w - 1) ->
          x (result (operator_neg v)) = - x v)
         /\ (- 2 ^ (bits w - 1) < y v < 2 ^ (bits w - 1) ->
             y (result (operator_neg v)) = - y v)
         /\ (x v = - 2 ^ (bits w - 1) -> x (result (operator_neg v)) = x v)
         /\ (y v = - 2 ^ (bits w - 1) -> y (result (operator_neg v)) = y v)
         /\ this_after (operator_neg v) = v)
  /\ (forall (s : signedness) (w : int_width) (v : Vector2 (Int s w)),
         (x (result (operator_neg v)) + x v) mod 2 ^ bits w = 0
         /\ (y (result (operator_neg v)) + y v) mod 2 ^ bits w = 0)
  /\ result (operator_neg (@mkVector2 int32_t 1 (-2))) = @mkVector2 int32_t (-1) 2
  /\ result (operator_neg (@mkVector2 int64_t (-5) 0)) = @mkVector2 int64_t 5 0
  /\ result
       (operator_neg
          (@mkVector2 double (S754_finite false 3 (-1)) (S754_zero true)))
     = @mkVector2 double (S754_finite true 3 (-1)) (S754_zero false).
Proof.
  assert (Hsigned : forall (w : int_width) (c : Z),
             (- 2 ^ (bits w - 1) < c < 2 ^ (bits w - 1) ->
              neg (Int Signed w) c = - c)
             /\ (c = - 2 ^ (bits w - 1) -> neg (Int Signed w) c = c)).
  { intros w c; split; intros H.
    - apply wrap_small. unfold in_range. lia.
    - subst c. destruct w; reflexivity. }
  assert (Hmod : forall (s : signedness) (w : int_width) (c : Z),
             (neg (Int s w) c + c) mod 2 ^ bits w = 0).
  { intros s w c. cbv [neg].
    rewrite <- Zplus_mod_idemp_l, wrap_mod, Zplus_mod_idemp_l.
    replace (- c + c) with 0 by lia. apply Z.mod_0_l. destruct w; discriminate. }
  split; [| split; [| split; [| split; [| split; [| split]]]]].
  - intros; split; reflexivity.
  - intros; reflexivity.
  - intros; repeat split.
  - reflexivity.
  - intros w v; cbn [operator_neg result this_after x y].
    split; [apply Hsigned | split; [apply Hsigned | split; [apply Hsigned |]]].
    split; [apply Hsigned | reflexivity].
  - intros s w v; cbn [operator_neg result x y]. split; apply Hmod.
  - repeat split.
Qed.

(** [-Vector2<int>(1, -2)]: both components lie strictly between the
    bounds of [int], and the result is [(-1, 2)]. *)
Lemma operator_neg_spec_witness :
  x (result (operator_neg (@mkVector2 int32_t 1 (-2)))) = -1
  /\ y (result (operator_neg (@mkVector2 int32_t 1 (-2)))) = 2.
Proof.
  destruct operator_neg_spec as (_ & _ & _ & _ & H & _).
  destruct (H W32 (@mkVector2 int32_t 1 (-2))) as (Hx & Hy & _).
  split; [apply Hx | apply Hy]; vm_compute; split; reflexivity.
Defined.

(** ** Compound addition *)


(** ** The scalar overloads and vector operands *)


(** C5.  [*=] and [/=] are unconstrained templates that hand their right
    operand to the binary operator: a scalar scales every component, and a
    [Vector2] is taken too, for overload resolution then selects the
    piecewise operator whatever [VectorTraits.hpp] makes of the scalar
    candidates.  Nothing rejects a [Vector2] right operand:
    [Vector2<int>(1,2) *= Vector2<int>(3,4)] compiles and leaves [(3,8)],
    [Vector2<int>(6,8) /= Vector2<int>(3,4)] leaves [(2,2)], where the
    scalar overloads of [*] and [/] called on the same operands are
    rejected. *)
Theorem compound_scale_takes_a_vector (traits : type -> type -> bool) :
  operator_mul_assign traits (@mkVector2 int32_t 1 2)
    (vector_operand (@mkVector2 int32_t 3 4))
  = Compiled (mkCall ref_this (@mkVector2 int32_t 3 8))
  /\ operator_div_assign traits (@mkVector2 int32_t 6 8)
       (vector_operand (@mkVector2 int32_t 3 4))
     = Compiled (mkCall ref_this (@mkVector2 int32_t 2 2))
  /\ rejected
       (call_mul traits vector_scalar_overload
          (vector_operand (@mkVector2 int32_t 1 2))
          (vector_operand (@mkVector2 int32_t 3 4))) = true
  /\ rejected
       (call_div traits vector_scalar_overload
          (vector_operand (@mkVector2 int32_t 6 8))
          (vector_operand (@mkVector2 int32_t 3 4))) = true
  /\ (forall (Scalar T : kind) (v : Vector2 Scalar) (w : Vector2 T),
         operator_mul_assign traits v (vector_operand w)
         = Compiled (operator_assign v (operator_mul v w))
         /\ operator_div_assign traits v (vector_operand w)
            = Compiled (operator_assign v (operator_div v w)))
  /\ (forall (Scalar R : kind) (v : Vector2 Scalar) (r : sem R),
         operator_mul_assign traits v (scalar_operand r)
         = Compiled (operator_assign v (operator_mul_scalar v r))
         /\ operator_div_assign traits v (scalar_operand r)
            = Compiled (operator_assign v (operator_div_scalar v r)))
  /\ ~ (forall (Scalar T : kind) (v : Vector2 Scalar) (w : Vector2 T),
           rejected (operator_mul_assign traits v (vector_operand w)) = true
           /\ rejected (operator_div_assign traits v (vector_operand w)) = true).
Proof.
  assert (Hvec : forall (Scalar T : kind) (v : Vector2 Scalar) (w : Vector2 T),
             operator_mul_assign traits v (vector_operand w)
             = Compiled (operator_assign v (operator_mul v w))
             /\ operator_div_assign traits v (vector_operand w)
                = Compiled (operator_assign v (operator_div v w))).
  { intros Scalar T v w.
    cbv [operator_mul_assign operator_div_assign assign_expr mul_expr div_expr
         operator_expr vector_operand type_of mul_overloads div_overloads
         filter deduces VectorOpResult_at].
    destruct (traits (Vector2_t T) (scalar_t Scalar)),
      (traits (scalar_t T) (Vector2_t Scalar)); split; reflexivity. }
  split; [| split; [| split; [| split; [| split; [| split]]]]].
  - rewrite (proj1 (Hvec _ _ _ _)). reflexivity.
  - rewrite (proj2 (Hvec _ _ _ _)). reflexivity.
  - cbv [call_mul vector_operand operator_mul_scalar_at VectorOpResult_at
         IsVector].
    destruct (traits (Vector2_t int32_t) (scalar_t int32_t)); reflexivity.
  - cbv [call_div vector_operand operator_div_scalar_at VectorOpResult_at
         IsVector].
    destruct (traits (Vector2_t int32_t) (scalar_t int32_t)); reflexivity.
  - exact Hvec.
  - intros; split; reflexivity.
  - intros H.
    destruct (H int32_t int32_t (@mkVector2 int32_t 1 2) (@mkVector2 int32_t 3 4))
      as [H1 _].
    rewrite (proj1 (Hvec _ _ _ _)) in H1. discriminate H1.
Qed.

(** ** Conversion from floating point to integer *)

Lemma Qtrunc_inject_Z (z : Z) : Qtrunc (inject_Z z) = z.
Proof.
  unfold Qtrunc.
  destruct (Qle_bool 0 (inject_Z z)).
  - apply Qfloor_Z.
  - apply Qceiling_Z.
Qed.

(** [SFtrunc] drops the fraction of the exact value. *)
Lemma SFtrunc_Qtrunc (f : spec_float) : SFtrunc f = Qtrunc (SF2Q f).
Proof.
  destruct f as [s | s | | s m e]; try reflexivity.
  destruct e as [| p | p]; unfold SFtrunc, SF2Q.
  - rewrite Qtrunc_inject_Z, Z.shiftl_0_r, Z.pow_0_r, Z.mul_1_r. reflexivity.
  - rewrite Qtrunc_inject_Z, Z.shiftl_mul_pow2 by apply Pos2Z.is_nonneg.
    reflexivity.
  - change (Z.shiftl (Z.pos m) (Z.neg p)) with (Z.shiftr (Z.pos m) (Z.pos p)).
    rewrite Z.shiftr_div_pow2 by apply Pos2Z.is_nonneg.
    unfold Qtrunc, Qceiling, Qfloor, Qle_bool, Qopp; cbn [Qnum Qden].
    rewrite Pos2Z.inj_pow.
    destruct s; cbn [cond_Zopp].
    + reflexivity.
    + reflexivity.
Qed.

(** [Qtrunc q] is the integer next to [q] on the side of zero. *)
Lemma Qtrunc_toward_zero (q : Q) :
  ((0 <= q -> inject_Z (Qtrunc q) <= q < inject_Z (Qtrunc q + 1))
   /\ (q < 0 -> inject_Z (Qtrunc q - 1) < q <= inject_Z (Qtrunc q)))%Q.
Proof.
  unfold Qtrunc; split; intros H.
  - apply Qle_bool_iff in H. rewrite H.
    split; [apply Qfloor_le | apply Qlt_floor].
  - destruct (Qle_bool 0 q) eqn:E.
    + apply Qle_bool_iff in E. exfalso. apply (Qlt_not_le _ _ H E).
    + split; [apply Qceiling_lt | apply Qle_ceiling].
Qed.

(** C9.  Converting a floating-point vector to an integer kind, by the
    converting constructor or by the converting assignment, turns every
    component into its exact value truncated toward zero, whenever the
    component is finite and the truncated value fits the integer kind (the
    conversion is undefined otherwise). *)
Theorem float_to_int_truncates
  (fa : float_format) (s : signedness) (w : int_width)
  (this : Vector2 (Int s w)) (source : Vector2 (Float fa)) :
  is_finite (x source) = true ->
  is_finite (y source) = true ->
  in_range s w (Qtrunc (SF2Q (x source))) ->
  in_range s w (Qtrunc (SF2Q (y source))) ->
  Vector2_convert (Int s w) source
  = @mkVector2 (Int s w) (Qtrunc (SF2Q (x source))) (Qtrunc (SF2Q (y source)))
  /\ this_after (operator_assign this source)
     = @mkVector2 (Int s w) (Qtrunc (SF2Q (x source))) (Qtrunc (SF2Q (y source))).
Proof.
  intros _ _ Hx Hy.
  unfold Vector2_convert, operator_assign; cbn [this_after conv].
  rewrite !SFtrunc_Qtrunc, (wrap_small _ _ _ Hx), (wrap_small _ _ _ Hy).
  split; reflexivity.
Qed.

(** The double vector [(1.1, 2.2)] becomes the integer vector [(1, 2)]. *)
Lemma float_to_int_truncates_witness :
  Vector2_convert int32_t (@mkVector2 double double_1_1 double_2_2)
  = @mkVector2 int32_t 1 2
  /\ this_after
       (operator_assign (Vector2_default int32_t)
          (@mkVector2 double double_1_1 double_2_2))
     = @mkVector2 int32_t 1 2.
Proof.
  apply (float_to_int_truncates Double Signed W32 (Vector2_default int32_t)
           (@mkVector2 double double_1_1 double_2_2));
    first [reflexivity | vm_compute; split; [discriminate | reflexivity]].
Defined.

(** ** Length *)

(** C2.  The template [length] squares and sums the components in the
    scalar kind of the vector and converts the sum to [double] afterwards.
    For [Vector2<uint32_t>(65536, 0)] the square wraps to [0] and the length
    is [0.0], where converting the components first gives [65536.0].  The
    overload for [Vector2<float>] works in single precision throughout. *)
Theorem length_squares_before_promoting :
  (forall (Scalar : kind) (v : Vector2 Scalar),
      length_template v
      = std_sqrt double
          (conv Scalar double
             (add Scalar (mul Scalar (x v) (x v)) (mul Scalar (y v) (y v)))))
  /\ length (@mkVector2 uint32_t 65536 0) = S754_zero false
  /\ length_as_documented (@mkVector2 uint32_t 65536 0)
     = conv int32_t double 65536
  /\ (forall f : Vector2 float,
         length f
         = SFsqrt 24 128
             (SFadd 24 128 (SFmul 24 128 (x f) (x f))
                (SFmul 24 128 (y f) (y f)))).
Proof.
  split; [| split; [| split]].
  - intros Scalar v; each_kind Scalar; reflexivity.
  - reflexivity.
  - reflexivity.
  - intros f; reflexivity.
Qed.

(** ** Normalisation *)

(** C4.  [normalize(v)] divides each component of [v], converted to the
    result kind, by [length(v)]: an IEEE 754 division, in single precision
    for a [Vector2<float>] and in double precision for every other vector,
    whose components are converted to [double] first.  [length(v)] is the
    square root of the sum of the squares as [length] takes it.  The result
    kind is the kind the quotient [source / length(source)] already has.
    [normalize(Vector2<int>(3, 4))] is [(0.6, 0.8)], the doubles nearest to
    3/5 and 4/5, [normalize(Vector2<float>(3, 4))] is the same in single
    precision, and [normalize(Vector2<double>(0, -2))] is [(0, -1)]. *)
Theorem normalize_spec :
  (forall (Scalar : kind) (v : Vector2 Scalar),
      let RType := normalize_kind Scalar in
      normalize v
      = mkVector2 (div RType (conv Scalar RType (x v)) (length v))
          (div RType (conv Scalar RType (y v)) (length v))
      /\ VectorOpResult (length_kind Scalar) Scalar = RType
      /\ is_floating_point RType = true)
  /\ normalize_kind float = float
  /\ normalize_kind double = double
  /\ (forall (s : signedness) (w : int_width), normalize_kind (Int s w) = double)
  /\ (forall v : Vector2 float,
         let l :=
           SFsqrt 24 128
             (SFadd 24 128 (SFmul 24 128 (x v) (x v))
                (SFmul 24 128 (y v) (y v))) in
         length v = l
         /\ normalize v
            = @mkVector2 float (SFdiv 24 128 (x v) l) (SFdiv 24 128 (y v) l))
  /\ (forall v : Vector2 double,
         let l :=
           SFsqrt 53 1024
             (SFadd 53 1024 (SFmul 53 1024 (x v) (x v))
                (SFmul 53 1024 (y v) (y v))) in
         length v = l
         /\ normalize v
            = @mkVector2 double (SFdiv 53 1024 (x v) l) (SFdiv 53 1024 (y v) l))
  /\ (forall (s : signedness) (w : int_width) (v : Vector2 (Int s w)),
         let l :=
           SFsqrt 53 1024
             (binary_normalize 53 1024
                (wrap s w (wrap s w (x v * x v) + wrap s w (y v * y v)))
                0 false) in
         length v = l
         /\ normalize v
            = @mkVector2 double
                (SFdiv 53 1024 (binary_normalize 53 1024 (x v) 0 false) l)
                (SFdiv 53 1024 (binary_normalize 53 1024 (y v) 0 false) l))
  /\ length (@mkVector2 int32_t 3 4) = S754_finite false 5629499534213120 (-50)
  /\ normalize (@mkVector2 int32_t 3 4)
     = @mkVector2 double (S754_finite false 5404319552844595 (-53))
         (S754_finite false 7205759403792794 (-53))
  /\ ((3 # 5) - (1 # 2 ^ 54) <= SF2Q (S754_finite false 5404319552844595 (-53))
      <= (3 # 5) + (1 # 2 ^ 54))%Q
  /\ ((4 # 5) - (1 # 2 ^ 54) <= SF2Q (S754_finite false 7205759403792794 (-53))
      <= (4 # 5) + (1 # 2 ^ 54))%Q
  /\ normalize
       (@mkVector2 float (S754_finite false 12582912 (-22))
          (S754_finite false 8388608 (-21)))
     = @mkVector2 float (S754_finite false 10066330 (-24))
         (S754_finite false 13421773 (-24))
  /\ ((3 # 5) - (1 # 2 ^ 25) <= SF2Q (S754_finite false 10066330 (-24))
      <= (3 # 5) + (1 # 2 ^ 25))%Q
  /\ ((4 # 5) - (1 # 2 ^ 25) <= SF2Q (S754_finite false 13421773 (-24))
      <= (4 # 5) + (1 # 2 ^ 25))%Q
  /\ normalize
       (@mkVector2 double (S754_zero false)
          (S754_finite true 4503599627370496 (-51)))
     = @mkVector2 double (S754_zero false)
         (S754_finite true 4503599627370496 (-52)).
Proof.
  split; [| split; [| split; [| split; [| split; [| split; [| split]]]]]].
  - intros Scalar v; each_kind Scalar; repeat split.
  - reflexivity.
  - reflexivity.
  - intros; reflexivity.
  - intros v; split; reflexivity.
  - intros v; split; reflexivity.
  - intros s w v; destruct s, w; split; reflexivity.
  - repeat split; try reflexivity; vm_compute; discriminate.
Qed.

(** ** Reflection *)



(** ** Refraction *)

Lemma Compiled_if (A : Type) (c : bool) (a b : A) :
  (if c then Compiled a else Compiled b) = Compiled (if c then a else b).
Proof. destruct c; reflexivity. Qed.

(** C1, as stated, fails: [k] is not computed in the common result kind.
    For the single-precision ray [grazing_incident], [grazing_normal],
    [grazing_index], arithmetic in [float] gives [k = +0], which is not
    negative, and the refracted vector [(0, 0.5625)]; [refract] takes the
    two differences and the product between them in [double], finds a
    negative [k] and returns the zero vector. *)
Lemma refract_k_is_computed_in_double :
  k_in_result_kind grazing_incident grazing_normal grazing_index
  = S754_zero false
  /\ refract_as_specified grazing_incident grazing_normal grazing_index
     = @mkVector2 float (S754_zero false) (S754_finite false 9437184 (-24))
  /\ refract grazing_incident grazing_normal grazing_index
     = Compiled (@mkVector2 float (S754_zero false) (S754_zero false))
  /\ refract grazing_incident grazing_normal grazing_index
     <> Compiled
          (refract_as_specified grazing_incident grazing_normal grazing_index)
  /\ ~ (forall (VType1 VType2 : kind) (F : float_format)
          (i : Vector2 VType1) (n : Vector2 VType2) (eta : sem (Float F)),
           refract i n eta = Compiled (refract_as_specified i n eta)).
Proof.
  assert (H : refract grazing_incident grazing_normal grazing_index
              <> Compiled
                   (refract_as_specified grazing_incident grazing_normal
                      grazing_index))
    by (vm_compute; discriminate).
  repeat split; try reflexivity.
  - exact H.
  - intros A. apply H. apply (A float float Single).
Qed.

(** C1, amended.  With a floating-point index [eta], [refract(i, n, eta)]
    takes [dot_ni = n.x * i.x + n.y * i.y] as a value of the common kind
    [R] of the three arguments, a floating-point kind.  In
    [k = 1.0 - eta * eta * (1.0 - dot_ni * dot_ni)] the product [eta * eta]
    is taken in the kind of [eta] and [dot_ni * dot_ni] in [R]; the
    literals [1.0] make both differences and the product between them
    double precision, and the result is stored in [k] converted to [R].
    [refract] returns the zero vector of kind [R] when [k < 0.0] and
    otherwise the vector of components
    [eta * i - (eta * dot_ni + sqrt(k)) * n], where [eta * i] is taken at
    the common type of [eta] and the components of [i] and the rest in [R].
    For three [double] arguments every operation is the IEEE 754 binary64
    one; for three [float] arguments all are binary32 but the three of [k]
    that a literal [1.0] widens.  A ray along the normal goes straight
    through: with [i = (0, -1)], [n = (0, 1)] and [eta = 0.5] the result is
    [(0, -1)], in [double] and for integer vectors with a [float] index.
    The ray [i = (0.6, -0.8)] leaves with [x = 0.3], the sines of the two
    angles being in the ratio [eta], and a [y] whose square is 0.91 up to
    rounding.  With [i = (1, 0)], [n = (0, 1)] and [eta = 2] the reflection
    is total: [k = -3] and the result is [(+0, +0)]; so it is for the
    single-precision ray [grazing_incident], whose [k] is negative in
    [double] only. *)
Theorem refract_spec :
  (forall (VType1 VType2 : kind) (F : float_format)
      (i : Vector2 VType1) (n : Vector2 VType2) (eta : sem (Float F)),
      let FType := Float F in
      let R := common_type3 FType VType1 VType2 in
      let D := common_type VType2 VType1 in
      let dot_ni : sem R :=
        conv D R
          (add D (mul D (conv VType2 D (x n)) (conv VType1 D (x i)))
             (mul D (conv VType2 D (y n)) (conv VType1 D (y i)))) in
      let k : sem R :=
        conv double R
          (sub double one
             (mul double (conv FType double (mul FType eta eta))
                (sub double one (conv R double (mul R dot_ni dot_ni))))) in
      let s : sem R :=
        add R (mul R (conv FType R eta) dot_ni)
          (conv (sqrt_kind R) R (std_sqrt R k)) in
      let I := common_type VType1 FType in
      let component (a : sem VType1) (b : sem VType2) : sem R :=
        sub R (conv I R (mul I (conv VType1 I a) (conv FType I eta)))
          (mul R (conv VType2 R b) s) in
      is_floating_point R = true
      /\ refract i n eta
         = Compiled
             (if compare ltb R double k zero then Vector2_default R
              else mkVector2 (component (x i) (x n)) (component (y i) (y n))))
  /\ (forall (i n : Vector2 double) (eta : sem double),
         let one := S754_finite false 4503599627370496 (-52) in
         let dot_ni :=
           SFadd 53 1024 (SFmul 53 1024 (x n) (x i))
             (SFmul 53 1024 (y n) (y i)) in
         let k :=
           SFsub 53 1024 one
             (SFmul 53 1024 (SFmul 53 1024 eta eta)
                (SFsub 53 1024 one (SFmul 53 1024 dot_ni dot_ni))) in
         let s :=
           SFadd 53 1024 (SFmul 53 1024 eta dot_ni) (SFsqrt 53 1024 k) in
         refract i n eta
         = Compiled
             (if SFltb k (S754_zero false)
              then @mkVector2 double (S754_zero false) (S754_zero false)
              else
                @mkVector2 double
                  (SFsub 53 1024 (SFmul 53 1024 (x i) eta)
                     (SFmul 53 1024 (x n) s))
                  (SFsub 53 1024 (SFmul 53 1024 (y i) eta)
                     (SFmul 53 1024 (y n) s))))
  /\ (forall (i n : Vector2 float) (eta : sem float),
         let one := S754_finite false 4503599627370496 (-52) in
         let round (prec emax : Z) (v : spec_float) :=
           match v with
           | S754_finite s m e => binary_round prec emax s m e
           | _ => v
           end in
         let dot_ni :=
           SFadd 24 128 (SFmul 24 128 (x n) (x i))
             (SFmul 24 128 (y n) (y i)) in
         let k :=
           round 24 128
             (SFsub 53 1024 one
                (SFmul 53 1024 (round 53 1024 (SFmul 24 128 eta eta))
                   (SFsub 53 1024 one
                      (round 53 1024 (SFmul 24 128 dot_ni dot_ni))))) in
         let s :=
           SFadd 24 128 (SFmul 24 128 eta dot_ni) (SFsqrt 24 128 k) in
         refract i n eta
         = Compiled
             (if SFltb (round 53 1024 k) (S754_zero false)
              then @mkVector2 float (S754_zero false) (S754_zero false)
              else
                @mkVector2 float
                  (SFsub 24 128 (SFmul 24 128 (x i) eta)
                     (SFmul 24 128 (x n) s))
                  (SFsub 24 128 (SFmul 24 128 (y i) eta)
                     (SFmul 24 128 (y n) s))))
  /\ refract
       (@mkVector2 double (S754_zero false)
          (S754_finite true 4503599627370496 (-52)))
       (@mkVector2 double (S754_zero false)
          (S754_finite false 4503599627370496 (-52)))
       (S754_finite false 4503599627370496 (-53) : sem double)
     = Compiled
         (@mkVector2 double (S754_zero false)
            (S754_finite true 4503599627370496 (-52)))
  /\ refract (@mkVector2 int32_t 0 (-1)) (@mkVector2 int32_t 0 1)
       (S754_finite false 8388608 (-24) : sem float)
     = Compiled
         (@mkVector2 float (S754_zero false) (S754_finite true 8388608 (-23)))
  /\ refract
       (@mkVector2 double (S754_finite false 5404319552844595 (-53))
          (S754_finite true 7205759403792794 (-53)))
       (@mkVector2 double (S754_zero false)
          (S754_finite false 4503599627370496 (-52)))
       (S754_finite false 4503599627370496 (-53) : sem double)
     = Compiled
         (@mkVector2 double (S754_finite false 5404319552844595 (-54))
            (S754_finite true 8592320464070930 (-53)))
  /\ ((3 # 10) - (1 # 2 ^ 55)
      <= SF2Q (S754_finite false 5404319552844595 (-54))
      <= (3 # 10) + (1 # 2 ^ 55))%Q
  /\ ((91 # 100) - (1 # 2 ^ 50)
      <= SF2Q (S754_finite true 8592320464070930 (-53))
         * SF2Q (S754_finite true 8592320464070930 (-53))
      <= (91 # 100) + (1 # 2 ^ 50))%Q
  /\ refract
       (@mkVector2 double (S754_finite false 4503599627370496 (-52))
          (S754_zero false))
       (@mkVector2 double (S754_zero false)
          (S754_finite false 4503599627370496 (-52)))
       (S754_finite false 4503599627370496 (-51) : sem double)
     = Compiled (@mkVector2 double (S754_zero false) (S754_zero false))
  /\ refract grazing_incident grazing_normal grazing_index
     = Compiled (@mkVector2 float (S754_zero false) (S754_zero false)).
Proof.
  split; [| split; [| split]].
  - intros VType1 VType2 F [ix iy] [nx ny] eta.
    each_kind VType1; each_kind VType2; destruct F;
      (split; [reflexivity |]);
      cbv [refract is_floating_point common_type3 common_type VectorOpResult
           dot arith compare conv same_int fconv Vector2_of Vector2_convert
           Vector2_default operator_minus scalar_operator_mul piecewise x y
           std_sqrt sqrt_kind prec emax zero];
      (etransitivity; [| apply Compiled_if]); reflexivity.
  - intros [ix iy] [nx ny] eta.
    cbv [refract is_floating_point common_type3 common_type VectorOpResult
         dot arith compare conv same_int fconv Vector2_of Vector2_convert
         operator_minus scalar_operator_mul piecewise x y
         std_sqrt sqrt_kind prec emax zero one add sub mul ltb];
      (etransitivity; [| apply Compiled_if]); reflexivity.
  - intros [ix iy] [nx ny] eta.
    cbv [refract is_floating_point common_type3 common_type VectorOpResult
         dot arith compare same_int Vector2_of Vector2_convert
         operator_minus scalar_operator_mul piecewise x y
         std_sqrt sqrt_kind prec emax zero one add sub mul ltb];
      cbv [conv];
      (etransitivity; [| apply Compiled_if]); reflexivity.
  - repeat split; try reflexivity; vm_compute; discriminate.
Qed.

(** * Further properties

    For the signed kinds the statements below read overflow as
    two's-complement wrap-around; an execution without overflow, the only
    kind C++ defines, computes the same values. *)

(** ** Modular arithmetic of the integer kinds *)

Lemma congruent_mod (M a b : Z) : congruent M a b -> a mod M = b mod M.
Proof. intros [H]; exact H. Qed.

#[local] Instance congruent_equivalence (M : Z) : Equivalence (congruent M).
Proof.
  split.
  - intros a; constructor; reflexivity.
  - intros a b [H]; constructor; symmetry; exact H.
  - intros a b c [H1] [H2]; constructor; congruence.
Qed.

#[local] Instance congruent_add (M : Z) :
  Proper (congruent M ==> congruent M ==> congruent M) Z.add.
Proof.
  intros a a' [Ha] b b' [Hb]; constructor.
  rewrite (Zplus_mod a b), (Zplus_mod a' b'), Ha, Hb; reflexivity.
Qed.

#[local] Instance congruent_sub (M : Z) :
  Proper (congruent M ==> congruent M ==> congruent M) Z.sub.
Proof.
  intros a a' [Ha] b b' [Hb]; constructor.
  rewrite (Zminus_mod a b), (Zminus_mod a' b'), Ha, Hb; reflexivity.
Qed.

#[local] Instance congruent_mul (M : Z) :
  Proper (congruent M ==> congruent M ==> congruent M) Z.mul.
Proof.
  intros a a' [Ha] b b' [Hb]; constructor.
  rewrite (Zmult_mod a b), (Zmult_mod a' b'), Ha, Hb; reflexivity.
Qed.

Lemma wrap_congruent (s : signedness) (w : int_width) (z : Z) :
  congruent (2 ^ bits w) (wrap s w z) z.
Proof. constructor; apply wrap_mod. Qed.

Lemma wrap_eq_of_congruent (s : signedness) (w : int_width) (a b : Z) :
  in_range s w b -> congruent (2 ^ bits w) a b -> wrap s w a = b.
Proof.
  intros Hb [H]. rewrite <- (wrap_small s w b Hb). apply wrap_congr, H.
Qed.

Lemma strip_wrap (s : signedness) (w : int_width) (a e : Z) :
  congruent (2 ^ bits w) a e -> congruent (2 ^ bits w) (wrap s w a) e.
Proof. intros H. rewrite <- H. apply wrap_congruent. Qed.

Lemma strip_add (M a a' b b' : Z) :
  congruent M a a' -> congruent M b b' -> congruent M (a + b) (a' + b').
Proof. intros Ha Hb. rewrite Ha, Hb. reflexivity. Qed.

Lemma strip_sub (M a a' b b' : Z) :
  congruent M a a' -> congruent M b b' -> congruent M (a - b) (a' - b').
Proof. intros Ha Hb. rewrite Ha, Hb. reflexivity. Qed.

Lemma strip_mul (M a a' b b' : Z) :
  congruent M a a' -> congruent M b b' -> congruent M (a * b) (a' * b').
Proof. intros Ha Hb. rewrite Ha, Hb. reflexivity. Qed.

Lemma strip_opp (M a a' : Z) :
  congruent M a a' -> congruent M (- a) (- a').
Proof. intros Ha. rewrite <- !Z.sub_0_l, Ha. reflexivity. Qed.

Lemma congruent_via (M p p' q q' : Z) :
  congruent M p p' -> congruent M q q' -> congruent M p' q' -> congruent M p q.
Proof. intros Hp Hq H. rewrite Hp, Hq. exact H. Qed.

(** Removes every [wrap] from the left side of a congruence. *)
Ltac strip_wraps :=
  lazymatch goal with
  | |- congruent _ (wrap _ _ _) _ => eapply strip_wrap; strip_wraps
  | |- congruent _ (_ + _) _ => eapply strip_add; strip_wraps
  | |- congruent _ (_ - _) _ => eapply strip_sub; strip_wraps
  | |- congruent _ (_ * _) _ => eapply strip_mul; strip_wraps
  | |- congruent _ (- _) _ => eapply strip_opp; strip_wraps
  | |- congruent _ _ _ => reflexivity
  end.

(** Reduces a congruence between two expressions of wrapped arithmetic to
    the congruence of the plain expressions. *)
Ltac modular := eapply congruent_via; [strip_wraps | strip_wraps |].

(** Closes a congruence, and an equation between two wrapped expressions,
    whose sides are equal as polynomials. *)
Ltac congruent_ring :=
  match goal with
  | |- congruent _ ?p ?q =>
      let E := fresh in
      assert (E : @eq Z p q) by ring; rewrite E; reflexivity
  end.

Ltac modular_ring := apply wrap_congr, congruent_mod; modular; congruent_ring.

(** Unfolds the operators on integer vectors down to [wrap]. *)
Ltac int_vector_ops :=
  cbv [operator_plus operator_minus operator_mul operator_div piecewise
       operator_mul_scalar scalar_operator_mul operator_div_scalar
       operator_plus_assign operator_minus_assign operator_assign operator_neg
       reflect dot Vector2_of Vector2_convert Vector2_default arith x y
       this_after result VectorOpResult common_type conv same_int
       add sub mul div neg].

(** ** Commutativity *)

Lemma SFadd_comm (p e : Z) (a b : spec_float) : SFadd p e a b = SFadd p e b a.
Proof.
  destruct a as [sa | sa | | sa ma ea], b as [sb | sb | | sb mb eb];
    try reflexivity; try (destruct sa, sb; reflexivity).
  unfold SFadd. rewrite (Z.min_comm ea eb), Z.add_comm. reflexivity.
Qed.

Lemma SFmul_comm (p e : Z) (a b : spec_float) : SFmul p e a b = SFmul p e b a.
Proof.
  destruct a as [sa | sa | | sa ma ea], b as [sb | sb | | sb mb eb];
    try reflexivity; try (destruct sa, sb; reflexivity).
  unfold SFmul.
  rewrite (xorb_comm sa sb), (Pos.mul_comm ma mb), (Z.add_comm ea eb).
  reflexivity.
Qed.

Lemma add_comm (k : kind) (a b : sem k) : add k a b = add k b a.
Proof.
  destruct k as [s w | f]; cbn [add].
  - rewrite Z.add_comm. reflexivity.
  - apply SFadd_comm.
Qed.

Lemma mul_comm (k : kind) (a b : sem k) : mul k a b = mul k b a.
Proof.
  destruct k as [s w | f]; cbn [mul].
  - rewrite Z.mul_comm. reflexivity.
  - apply SFmul_comm.
Qed.

(** Addition and piecewise multiplication commute, at any two kinds:
    [a + b] and [b + a], and [a * b] and [b * a], have the same components,
    floating-point rounding included. *)
Theorem piecewise_ops_commute (LType RType : kind)
  (a : Vector2 LType) (b : Vector2 RType) :
  operator_plus a b
  = Vector2_convert (VectorOpResult RType LType) (operator_plus b a)
  /\ operator_mul a b
     = Vector2_convert (VectorOpResult RType LType) (operator_mul b a).
Proof.
  destruct a as [ax ay], b as [bx b_y].
  each_kind LType; each_kind RType;
    cbv [operator_plus operator_mul piecewise Vector2_of Vector2_convert
         arith x y VectorOpResult common_type conv same_int fconv];
    (split; f_equal; first [apply add_comm | apply mul_comm]).
Qed.

(** [dot(a, b)] and [dot(b, a)] are the same scalar, at any two kinds. *)
Theorem dot_comm (LType RType : kind)
  (a : Vector2 LType) (b : Vector2 RType) :
  dot a b
  = conv (VectorOpResult LType RType) (VectorOpResult RType LType) (dot b a).
Proof.
  destruct a as [ax ay], b as [bx b_y].
  each_kind LType; each_kind RType;
    cbv [dot arith x y VectorOpResult common_type conv same_int fconv];
    f_equal; apply mul_comm.
Qed.

(** [k * v] and [v * k] are the same vector: both overloads multiply each
    component of the vector by the scalar, in that order. *)
Theorem scalar_on_either_side (VType KType : kind)
  (v : Vector2 VType) (k : sem KType) :
  scalar_operator_mul k v
  = Vector2_convert (VectorOpResult VType KType) (operator_mul_scalar v k).
Proof.
  destruct v as [vx vy].
  each_kind VType; each_kind KType; reflexivity.
Qed.

(** ** Integer vectors *)

(** Addition of vectors of an unsigned kind is associative. *)
Theorem unsigned_plus_assoc (w : int_width)
  (a b c : Vector2 (Int Unsigned w)) :
  Vector2_convert (Int Unsigned w) (operator_plus (operator_plus a b) c)
  = Vector2_convert (Int Unsigned w) (operator_plus a (operator_plus b c)).
Proof.
  destruct a as [ax ay], b as [bx b_y], c as [cx cy].
  destruct w; int_vector_ops; f_equal; modular_ring.
Qed.

(** For vectors of an unsigned kind, scaling a sum is summing the scaled
    vectors. *)
Theorem unsigned_scale_distributes (w : int_width)
  (a b : Vector2 (Int Unsigned w)) (k : Z) :
  Vector2_convert (Int Unsigned w)
    (operator_mul_scalar (RhsType := Int Unsigned w) (operator_plus a b) k)
  = Vector2_convert (Int Unsigned w)
      (operator_plus (operator_mul_scalar (RhsType := Int Unsigned w) a k)
         (operator_mul_scalar (RhsType := Int Unsigned w) b k)).
Proof.
  destruct a as [ax ay], b as [bx b_y].
  destruct w; int_vector_ops; f_equal; modular_ring.
Qed.

(** [v - v] is the zero vector, for an integer vector [v]. *)
Theorem operator_minus_self (s : signedness) (w : int_width)
  (v : Vector2 (Int s w)) :
  Vector2_convert (Int s w) (operator_minus v v) = Vector2_default (Int s w).
Proof.
  destruct v as [vx vy].
  destruct s, w; int_vector_ops; rewrite !Z.sub_diag; reflexivity.
Qed.

(** [v + Vector2(0, 0)] is [v], for an integer vector [v] whose components
    are values of its kind. *)
Theorem operator_plus_zero (s : signedness) (w : int_width)
  (v : Vector2 (Int s w)) :
  in_range s w (x v) -> in_range s w (y v) ->
  Vector2_convert (Int s w) (operator_plus v (Vector2_default (Int s w))) = v.
Proof.
  destruct v as [vx vy]; cbn [x y]; intros Hx Hy.
  destruct s, w; int_vector_ops;
    rewrite !Z.add_0_r, (wrap_small _ _ _ Hx), (wrap_small _ _ _ Hy);
    reflexivity.
Qed.

Lemma operator_plus_zero_witness :
  Vector2_convert int32_t
    (operator_plus (@mkVector2 int32_t 1 (-2)) (Vector2_default int32_t))
  = @mkVector2 int32_t 1 (-2).
Proof.
  apply (operator_plus_zero Signed W32 (@mkVector2 int32_t 1 (-2)));
    vm_compute; split; first [discriminate | reflexivity].
Defined.

(** Subtracting what was added gives the vector back: [(a + b) - b] is
    [a], and [a += b] followed by [a -= b] leaves [a] as it was, for integer
    vectors of one kind. *)
Theorem plus_then_minus (s : signedness) (w : int_width)
  (a b : Vector2 (Int s w)) :
  in_range s w (x a) -> in_range s w (y a) ->
  Vector2_convert (Int s w) (operator_minus (operator_plus a b) b) = a
  /\ this_after
       (operator_minus_assign (this_after (operator_plus_assign a b)) b)
     = a.
Proof.
  destruct a as [ax ay], b as [bx b_y]; cbn [x y]; intros Hx Hy.
  destruct s, w; int_vector_ops;
    (split; f_equal; apply wrap_eq_of_congruent; try assumption; modular;
     congruent_ring).
Qed.

Lemma plus_then_minus_witness :
  Vector2_convert int32_t
    (operator_minus
       (operator_plus (@mkVector2 int32_t 1 (-2)) (@mkVector2 int32_t 30 40))
       (@mkVector2 int32_t 30 40))
  = @mkVector2 int32_t 1 (-2)
  /\ this_after
       (operator_minus_assign
          (this_after
             (operator_plus_assign (@mkVector2 int32_t 1 (-2))
                (@mkVector2 int32_t 30 40)))
          (@mkVector2 int32_t 30 40))
     = @mkVector2 int32_t 1 (-2).
Proof.
  apply (plus_then_minus Signed W32 (@mkVector2 int32_t 1 (-2))
           (@mkVector2 int32_t 30 40));
    vm_compute; split; first [discriminate | reflexivity].
Defined.

(** [(v * k) / k] is [v] for an integer vector [v] and a scalar [k <> 0] of
    the same kind, as long as the products do not overflow; so is [v *= k]
    followed by [v /= k]. *)
Theorem scale_then_divide (s : signedness) (w : int_width)
  (v : Vector2 (Int s w)) (k : Z) :
  k <> 0 -> in_range s w k ->
  in_range s w (x v) -> in_range s w (y v) ->
  in_range s w (x v * k) -> in_range s w (y v * k) ->
  let scaled :=
    Vector2_convert (Int s w) (operator_mul_scalar (RhsType := Int s w) v k) in
  Vector2_convert (Int s w) (operator_div_scalar (RhsType := Int s w) scaled k)
  = v
  /\ (forall traits : type -> type -> bool,
         operator_mul_assign traits v (@scalar_operand (Int s w) k)
         = Compiled (mkCall ref_this scaled)
         /\ operator_div_assign traits scaled (@scalar_operand (Int s w) k)
            = Compiled (mkCall ref_this v)).
Proof.
  destruct v as [vx vy]; cbn [x y]; intros Hk Rk Hx Hy Mx My.
  destruct s, w;
    cbv [operator_mul_assign operator_div_assign assign_expr mul_expr div_expr
         operator_expr type_of vector_operand scalar_operand mul_overloads
         div_overloads filter deduces VectorOpResult_at best_viable forallb
         overload_eqb more_specialized orb call_mul call_div
         operator_mul_scalar_at operator_div_scalar_at IsVector];
    int_vector_ops;
    rewrite (wrap_small _ _ _ Mx), (wrap_small _ _ _ My),
      !Z.quot_mul by exact Hk;
    rewrite (wrap_small _ _ _ Hx), (wrap_small _ _ _ Hy); repeat split.
Qed.

Lemma scale_then_divide_witness :
  Vector2_convert int32_t
    (operator_div_scalar (RhsType := int32_t)
       (Vector2_convert int32_t
          (operator_mul_scalar (RhsType := int32_t)
             (@mkVector2 int32_t 3 (-4)) 7))
       7)
  = @mkVector2 int32_t 3 (-4)
  /\ (forall traits : type -> type -> bool,
         operator_mul_assign traits (@mkVector2 int32_t 3 (-4))
           (@scalar_operand int32_t 7)
         = Compiled (mkCall ref_this (@mkVector2 int32_t 21 (-28)))
         /\ operator_div_assign traits (@mkVector2 int32_t 21 (-28))
              (@scalar_operand int32_t 7)
            = Compiled (mkCall ref_this (@mkVector2 int32_t 3 (-4)))).
Proof.
  apply (scale_then_divide Signed W32 (@mkVector2 int32_t 3 (-4)) 7);
    first [discriminate
          | vm_compute; split; first [discriminate | reflexivity]].
Defined.

(** [(a * b) / b], piecewise, is [a] for integer vectors of one kind when
    no component of [b] is zero and the products do not overflow. *)
Theorem piecewise_mul_then_div (s : signedness) (w : int_width)
  (a b : Vector2 (Int s w)) :
  x b <> 0 -> y b <> 0 ->
  in_range s w (x a) -> in_range s w (y a) ->
  in_range s w (x a * x b) -> in_range s w (y a * y b) ->
  Vector2_convert (Int s w)
    (operator_div (Vector2_convert (Int s w) (operator_mul a b)) b)
  = a.
Proof.
  destruct a as [ax ay], b as [bx b_y]; cbn [x y]; intros Nx Ny Hx Hy Mx My.
  destruct s, w; int_vector_ops;
    rewrite (wrap_small _ _ _ Mx), (wrap_small _ _ _ My),
      !Z.quot_mul by assumption;
    rewrite (wrap_small _ _ _ Hx), (wrap_small _ _ _ Hy); reflexivity.
Qed.

Lemma piecewise_mul_then_div_witness :
  Vector2_convert int32_t
    (operator_div
       (Vector2_convert int32_t
          (operator_mul (@mkVector2 int32_t 3 (-4)) (@mkVector2 int32_t (-5) 6)))
       (@mkVector2 int32_t (-5) 6))
  = @mkVector2 int32_t 3 (-4).
Proof.
  apply (piecewise_mul_then_div Signed W32 (@mkVector2 int32_t 3 (-4))
           (@mkVector2 int32_t (-5) 6));
    first [discriminate
          | vm_compute; split; first [discriminate | reflexivity]].
Defined.

(** [dot] is linear in its first argument on integer vectors of one kind:
    [dot(a + b, c)] is [dot(a, c) + dot(b, c)] and [dot(a * k, c)] is
    [k * dot(a, c)]. *)
Theorem dot_is_linear (s : signedness) (w : int_width)
  (a b c : Vector2 (Int s w)) (k : Z) :
  let K := Int s w in
  conv (VectorOpResult K K) K (dot (Vector2_convert K (operator_plus a b)) c)
  = add K (conv (VectorOpResult K K) K (dot a c))
      (conv (VectorOpResult K K) K (dot b c))
  /\ conv (VectorOpResult K K) K
       (dot (Vector2_convert K (operator_mul_scalar (RhsType := K) a k)) c)
     = mul K k (conv (VectorOpResult K K) K (dot a c)).
Proof.
  destruct a as [ax ay], b as [bx b_y], c as [cx cy].
  destruct s, w; int_vector_ops; split; modular_ring.
Qed.

(** ** Negation and subtraction *)

Lemma SFopp_involutive (v : spec_float) : SFopp (SFopp v) = v.
Proof.
  destruct v as [s | s | | s m e]; cbn; rewrite ?negb_involutive; reflexivity.
Qed.

Lemma SFsub_add_opp (p e : Z) (a b : spec_float) :
  SFsub p e a b = SFadd p e a (SFopp b).
Proof.
  destruct a as [sa | sa | | sa ma ea], b as [sb | sb | | sb mb eb];
    try reflexivity; destruct sa, sb; reflexivity.
Qed.

Lemma SFmul_opp_opp (p e : Z) (a b : spec_float) :
  SFmul p e (SFopp a) (SFopp b) = SFmul p e a b.
Proof.
  destruct a as [sa | sa | | sa ma ea], b as [sb | sb | | sb mb eb];
    try reflexivity; destruct sa, sb; reflexivity.
Qed.

Lemma neg_neg (k : kind) (v : sem k) :
  representable k v -> neg k (neg k v) = v.
Proof.
  destruct k as [s w | f]; cbn [neg representable]; intros H.
  - apply wrap_eq_of_congruent; [exact H |].
    modular. rewrite Z.opp_involutive. reflexivity.
  - apply SFopp_involutive.
Qed.

Lemma sub_add_neg (k : kind) (a b : sem k) :
  sub k a b = add k a (neg k b).
Proof.
  destruct k as [s w | f]; cbn [sub add neg].
  - modular_ring.
  - apply SFsub_add_opp.
Qed.

Lemma mul_neg_neg (k : kind) (a b : sem k) :
  mul k (neg k a) (neg k b) = mul k a b.
Proof.
  destruct k as [s w | f]; cbn [mul neg].
  - modular_ring.
  - apply SFmul_opp_opp.
Qed.

(** Negating twice gives the vector back, at every kind: [-(-v)] is [v]
    for a vector [v] whose components are values of its kind. *)
Theorem double_negation (Scalar : kind) (v : Vector2 Scalar) :
  representable Scalar (x v) -> representable Scalar (y v) ->
  result (operator_neg (result (operator_neg v))) = v
  /\ this_after (operator_neg (result (operator_neg v)))
     = result (operator_neg v).
Proof.
  destruct v as [vx vy]; cbn [x y operator_neg result this_after]; intros Hx Hy.
  rewrite !neg_neg by assumption. split; reflexivity.
Qed.

Lemma double_negation_witness :
  result (operator_neg (result (operator_neg (@mkVector2 uint32_t 3 0))))
  = @mkVector2 uint32_t 3 0
  /\ this_after (operator_neg (result (operator_neg (@mkVector2 uint32_t 3 0))))
     = result (operator_neg (@mkVector2 uint32_t 3 0)).
Proof.
  apply (double_negation uint32_t (@mkVector2 uint32_t 3 0));
    vm_compute; split; first [discriminate | reflexivity].
Defined.

(** Subtracting a vector is adding its negation, for two vectors of one
    kind: [a - b] is [a + (-b)], floating-point rounding and signed zeros
    included. *)
Theorem minus_is_plus_negated (Scalar : kind) (a b : Vector2 Scalar) :
  operator_minus a b = operator_plus a (result (operator_neg b)).
Proof.
  destruct a as [ax ay], b as [bx b_y].
  each_kind Scalar;
    cbv [operator_plus operator_minus piecewise operator_neg result
         Vector2_of arith x y VectorOpResult common_type conv same_int fconv];
    f_equal; apply sub_add_neg.
Qed.

(** ** Comparisons *)

Lemma SFcompare_antisym (a b : spec_float) :
  SFcompare b a = option_map CompOpp (SFcompare a b).
Proof.
  destruct a as [sa | sa | | sa ma ea], b as [sb | sb | | sb mb eb];
    try reflexivity; try (destruct sa, sb; reflexivity);
    try (destruct sa; reflexivity); try (destruct sb; reflexivity).
  cbn [SFcompare option_map].
  rewrite (Z.compare_antisym ea eb).
  change (Pos.compare_cont Eq mb ma) with (Pos.compare mb ma).
  change (Pos.compare_cont Eq ma mb) with (Pos.compare ma mb).
  rewrite (Pos.compare_antisym ma mb).
  destruct sa, sb, (ea ?= eb), (ma ?= mb)%positive; reflexivity.
Qed.

Lemma SFcompare_refl (a : spec_float) :
  SFcompare a a = if is_nan a then None else Some Eq.
Proof.
  destruct a as [sa | sa | | sa ma ea]; try reflexivity.
  - destruct sa; reflexivity.
  - cbn [SFcompare is_nan]. rewrite Z.compare_refl.
    change (Pos.compare_cont Eq ma ma) with (Pos.compare ma ma).
    rewrite Pos.compare_refl. destruct sa; reflexivity.
Qed.

Lemma SFltb_trans (a b c : spec_float) :
  SFltb a b = true -> SFltb b c = true -> SFltb a c = true.
Proof.
  unfold SFltb.
  destruct a as [sa | sa | | sa ma ea], b as [sb | sb | | sb mb eb],
    c as [sc | sc | | sc mc ec]; cbn [SFcompare];
    try discriminate; try (destruct sa, sb, sc; cbn; congruence);
    try (destruct sa, sb; cbn; congruence);
    try (destruct sb, sc; cbn; congruence);
    try (destruct sa, sc; cbn; congruence).
  change (Pos.compare_cont Eq ma mb) with (Pos.compare ma mb).
  change (Pos.compare_cont Eq mb mc) with (Pos.compare mb mc).
  change (Pos.compare_cont Eq ma mc) with (Pos.compare ma mc).
  destruct sa, sb, sc; try discriminate; try reflexivity;
    destruct (Z.compare_spec ea eb), (Z.compare_spec eb ec),
      (Z.compare_spec ea ec), (Pos.compare_spec ma mb),
      (Pos.compare_spec mb mc), (Pos.compare_spec ma mc);
    cbn; try discriminate; try reflexivity; intros _ _; exfalso; lia.
Qed.

Lemma leb_antisym (k : kind) (a b : sem k) :
  leb k a b && leb k b a = eqb k a b.
Proof.
  destruct k as [s w | f]; cbn [leb eqb].
  - destruct (Z.leb_spec a b), (Z.leb_spec b a), (Z.eqb_spec a b); cbn; lia.
  - unfold SFleb, SFeqb. rewrite (SFcompare_antisym a b).
    destruct (SFcompare a b) as [[] |]; reflexivity.
Qed.

Lemma ltb_leb (k : kind) (a b : sem k) :
  ltb k a b = true ->
  leb k a b = true /\ eqb k a b = false /\ eqb k b a = false
  /\ leb k b a = false /\ ltb k b a = false.
Proof.
  destruct k as [s w | f]; cbn [ltb leb eqb].
  - intros H. apply Z.ltb_lt in H.
    repeat split;
      [apply Z.leb_le | apply Z.eqb_neq | apply Z.eqb_neq
       | apply Z.leb_gt | apply Z.ltb_ge]; lia.
  - unfold SFltb, SFleb, SFeqb. rewrite (SFcompare_antisym a b).
    destruct (SFcompare a b) as [[] |]; cbn; intros H;
      try discriminate H; repeat split.
Qed.

Lemma ltb_trans (k : kind) (a b c : sem k) :
  ltb k a b = true -> ltb k b c = true -> ltb k a c = true.
Proof.
  destruct k as [s w | f]; cbn [ltb].
  - rewrite !Z.ltb_lt. lia.
  - apply SFltb_trans.
Qed.

Lemma ltb_irrefl (k : kind) (a : sem k) : ltb k a a = false.
Proof.
  destruct k as [s w | f]; cbn [ltb].
  - apply Z.ltb_irrefl.
  - unfold SFltb. rewrite SFcompare_refl. destruct (is_nan a); reflexivity.
Qed.

Lemma eqb_refl (k : kind) (a : sem k) :
  eqb k a a = match k return sem k -> bool with
              | Int _ _ => fun _ => true
              | Float _ => fun v => negb (is_nan v)
              end a.
Proof.
  destruct k as [s w | f]; cbn [eqb].
  - apply Z.eqb_refl.
  - unfold SFeqb. rewrite SFcompare_refl. destruct (is_nan a); reflexivity.
Qed.

Ltac comparison_ops :=
  cbv [operator_eq operator_ne operator_lt operator_le operator_gt operator_ge
       compare x y common_type conv same_int fconv].

(** [a <= b] and [a >= b] hold together exactly when [a == b], at any two
    kinds and with NaN components too. *)
Theorem le_and_ge_is_eq (LType RType : kind)
  (a : Vector2 LType) (b : Vector2 RType) :
  operator_le a b && operator_ge a b = operator_eq a b.
Proof.
  destruct a as [ax ay], b as [bx b_y].
  each_kind LType; each_kind RType; comparison_ops;
    match goal with
    | |- (leb ?k ?u ?v && leb ?k ?u' ?v')
         && (leb ?k ?v ?u && leb ?k ?v' ?u') = _ =>
        rewrite <- (leb_antisym k u v), <- (leb_antisym k u' v');
        destruct (leb k u v), (leb k u' v'), (leb k v u), (leb k v' u');
        reflexivity
    end.
Qed.

(** When [a > b] holds, so do [a >= b] and [a != b], and neither [a <= b]
    nor [a < b] does, at any two kinds. *)
Theorem gt_excludes (LType RType : kind)
  (a : Vector2 LType) (b : Vector2 RType) :
  operator_gt a b = true ->
  operator_ge a b = true /\ operator_ne a b = true
  /\ operator_le a b = false /\ operator_lt a b = false.
Proof.
  destruct a as [ax ay], b as [bx b_y].
  each_kind LType; each_kind RType; comparison_ops;
    match goal with
    | |- ltb ?k ?u ?v && ltb ?k ?u' ?v' = true -> _ =>
        intros H; apply andb_prop in H; destruct H as [H1 H2];
        destruct (ltb_leb k u v H1) as (A1 & A2 & A3 & A4 & A5);
        destruct (ltb_leb k u' v' H2) as (B1 & B2 & B3 & B4 & B5);
        rewrite ?A1, ?A2, ?A3, ?A4, ?A5, ?B1, ?B2, ?B3, ?B4, ?B5;
        repeat split
    end.
Qed.

Lemma gt_excludes_witness :
  operator_ge (@mkVector2 int32_t 5 6) (@mkVector2 uint32_t 1 2) = true
  /\ operator_ne (@mkVector2 int32_t 5 6) (@mkVector2 uint32_t 1 2) = true
  /\ operator_le (@mkVector2 int32_t 5 6) (@mkVector2 uint32_t 1 2) = false
  /\ operator_lt (@mkVector2 int32_t 5 6) (@mkVector2 uint32_t 1 2) = false.
Proof.
  apply (gt_excludes int32_t uint32_t (@mkVector2 int32_t 5 6)
           (@mkVector2 uint32_t 1 2)).
  reflexivity.
Defined.

(** On vectors of one kind [<] is a strict order: it is transitive, and
    when [a < b] holds [b < a] does not; no vector is less than itself. *)
Theorem lt_is_a_strict_order (Scalar : kind) (a b c : Vector2 Scalar) :
  operator_lt a b = true -> operator_lt b c = true ->
  operator_lt a c = true /\ operator_lt b a = false /\ operator_lt a a = false.
Proof.
  destruct a as [ax ay], b as [bx b_y], c as [cx cy].
  each_kind Scalar; comparison_ops;
    match goal with
    | |- ltb ?k _ _ && _ = true -> _ =>
        intros H1 H2; apply andb_prop in H1, H2;
        destruct H1 as [P1 P2], H2 as [Q1 Q2];
        rewrite (ltb_trans k _ _ _ P1 Q1), (ltb_trans k _ _ _ P2 Q2),
          !ltb_irrefl;
        destruct (ltb_leb k _ _ P1) as (_ & _ & _ & _ & R);
        rewrite R; repeat split
    end.
Qed.

Lemma lt_is_a_strict_order_witness :
  operator_lt (@mkVector2 int32_t 1 2) (@mkVector2 int32_t 5 6) = true
  /\ operator_lt (@mkVector2 int32_t 3 4) (@mkVector2 int32_t 1 2) = false
  /\ operator_lt (@mkVector2 int32_t 1 2) (@mkVector2 int32_t 1 2) = false.
Proof.
  apply (lt_is_a_strict_order int32_t (@mkVector2 int32_t 1 2)
           (@mkVector2 int32_t 3 4) (@mkVector2 int32_t 5 6)); reflexivity.
Defined.

(** [v == v] holds exactly when no component of [v] is NaN, and [v != v]
    exactly when one is: an integer vector always equals itself, a
    floating-point vector with a NaN component never does. *)
Theorem eq_is_reflexive_without_nan (Scalar : kind) (v : Vector2 Scalar) :
  operator_eq v v = negb (has_nan Scalar v)
  /\ operator_ne v v = has_nan Scalar v.
Proof.
  destruct v as [vx vy].
  each_kind Scalar; cbv [operator_ne]; comparison_ops;
    cbv [has_nan x y];
    match goal with
    | |- context [eqb ?k ?u ?u] => rewrite (eqb_refl k u)
    end;
    match goal with
    | |- context [eqb ?k ?u ?u] => rewrite (eqb_refl k u)
    end;
    rewrite ?negb_orb, ?negb_andb, ?negb_involutive; split; reflexivity.
Qed.

(** Comparing a [Vector2<int32_t>] with a [Vector2<uint32_t>] converts the
    signed components to unsigned: a vector of negative components is
    greater than, and never less than, any unsigned vector with components
    below [2^31], and it equals the vector of its components plus [2^32]. *)
Theorem negative_int_exceeds_unsigned
  (a : Vector2 int32_t) (b : Vector2 uint32_t) :
  - 2 ^ 31 <= x a < 0 -> - 2 ^ 31 <= y a < 0 ->
  0 <= x b < 2 ^ 31 -> 0 <= y b < 2 ^ 31 ->
  operator_gt a b = true /\ operator_lt a b = false
  /\ operator_eq a (@mkVector2 uint32_t (x a + 2 ^ 32) (y a + 2 ^ 32)) = true.
Proof.
  destruct a as [ax ay], b as [bx b_y]; cbn [x y]; intros Hax Hay Hbx Hby.
  cbv [operator_gt operator_lt operator_eq compare x y common_type conv
       same_int ltb eqb wrap bits].
  change (2 ^ 31) with 2147483648 in *. change (2 ^ 32) with 4294967296 in *.
  assert (Ex : ax mod 4294967296 = ax + 4294967296).
  { symmetry; apply (Z.mod_unique_pos _ _ (-1)); lia. }
  assert (Ey : ay mod 4294967296 = ay + 4294967296).
  { symmetry; apply (Z.mod_unique_pos _ _ (-1)); lia. }
  rewrite Ex, Ey, !Z.eqb_refl.
  repeat split;
    rewrite ?andb_true_iff, ?andb_false_iff, ?Z.ltb_lt, ?Z.ltb_ge; lia.
Qed.

Lemma negative_int_exceeds_unsigned_witness :
  operator_gt (@mkVector2 int32_t (-1) (-2)) (@mkVector2 uint32_t 1 2) = true
  /\ operator_lt (@mkVector2 int32_t (-1) (-2)) (@mkVector2 uint32_t 1 2)
     = false
  /\ operator_eq (@mkVector2 int32_t (-1) (-2))
       (@mkVector2 uint32_t (-1 + 2 ^ 32) (-2 + 2 ^ 32)) = true.
Proof.
  apply (negative_int_exceeds_unsigned (@mkVector2 int32_t (-1) (-2))
           (@mkVector2 uint32_t 1 2));
    vm_compute; split; first [discriminate | reflexivity].
Defined.

(** ** Length and normalisation *)

Lemma sign_bit_round_aux (p e : Z) (s : bool) (m z : Z) (l : location) :
  sign_bit (binary_round_aux p e s m z l) = s
  \/ binary_round_aux p e s m z l = S754_nan.
Proof.
  unfold binary_round_aux.
  destruct (shr_fexp p e m z l) as [mrs' e'].
  destruct (shr_fexp p e _ e' loc_Exact) as [mrs'' e''].
  destruct (shr_m mrs'') as [| q | q].
  - left; reflexivity.
  - destruct (e'' <=? e - p); left; reflexivity.
  - right; reflexivity.
Qed.

Lemma SFsqrt_not_negative (p e : Z) (v : spec_float) :
  SFltb (SFsqrt p e v) (S754_zero false) = false.
Proof.
  destruct v as [s | [] | | [] m z]; try reflexivity.
  unfold SFsqrt.
  destruct (SFsqrt_core_binary p e (Z.pos m) z) as [[mz ez] lz].
  destruct (sign_bit_round_aux p e false mz ez lz) as [H | H].
  - destruct (binary_round_aux p e false mz ez lz) as [s | s | | s q r];
      cbn in H; subst; reflexivity.
  - rewrite H; reflexivity.
Qed.

(** [length(v) < 0] never holds, whatever the kind and the components of
    [v]: the length is a non-negative number, a zero or NaN. *)
Theorem length_is_never_negative (Scalar : kind) (v : Vector2 Scalar) :
  ltb (length_kind Scalar) (length v) (conv int32_t (length_kind Scalar) 0)
  = false.
Proof.
  each_kind Scalar;
    cbv [length length_kind length_template length_float std_sqrt ltb conv
         prec emax];
    apply SFsqrt_not_negative.
Qed.

(** [length] does not change when the vector is negated or its components
    are swapped. *)
Theorem length_is_symmetric (Scalar : kind) (v : Vector2 Scalar) :
  length (result (operator_neg v)) = length v
  /\ length (mkVector2 (y v) (x v)) = length v.
Proof.
  destruct v as [vx vy].
  each_kind Scalar;
    cbv [length length_template length_float operator_neg result arith x y
         common_type conv same_int fconv];
    (split;
     [ rewrite !mul_neg_neg; reflexivity
     | match goal with
       | |- context [add ?k ?a ?b] => rewrite (add_comm k a b); reflexivity
       end ]).
Qed.

Lemma SFdiv_by_zero (p e : Z) (a : spec_float) (s : bool) :
  SFdiv p e a (S754_zero s) = divided_by_zero s a.
Proof. destruct a; reflexivity. Qed.

Lemma divided_by_zero_not_finite (s : bool) (a : spec_float) :
  is_finite (divided_by_zero s a) = false.
Proof. destruct a; reflexivity. Qed.

(** Dividing a floating-point vector by a zero scalar raises nothing: a
    non-zero component becomes an infinity, with the sign of the component
    times the sign of the zero, and a zero or NaN component becomes NaN. *)
Theorem float_division_by_zero (f : float_format) (v : Vector2 (Float f))
  (s : bool) :
  operator_div_scalar (RhsType := Float f) v (S754_zero s)
  = Vector2_of (Float f) (VectorOpResult (Float f) (Float f))
      (divided_by_zero s (x v)) (divided_by_zero s (y v)).
Proof.
  destruct v as [vx vy].
  destruct f;
    cbv [operator_div_scalar Vector2_of arith x y VectorOpResult
         common_type conv fconv div prec emax];
    rewrite !SFdiv_by_zero; reflexivity.
Qed.

(** [normalize] has no case for a zero length: when [length(v)] is a zero,
    neither component of [normalize(v)] is a finite number.  This covers
    the zero vector and every vector whose squared length underflows. *)
Theorem normalize_of_zero_length (Scalar : kind) (v : Vector2 Scalar)
  (s : bool) :
  float_value (length_kind Scalar) (length v) = S754_zero s ->
  is_finite (float_value (normalize_kind Scalar) (x (normalize v))) = false
  /\ is_finite (float_value (normalize_kind Scalar) (y (normalize v))) = false.
Proof.
  each_kind Scalar; cbv [float_value length_kind normalize_kind]; intros H;
    cbv [normalize normalize_template normalize_float operator_div_scalar
         Vector2_of Vector2_convert arith x y VectorOpResult common_type
         length_kind conv same_int fconv div prec emax];
    rewrite H, !SFdiv_by_zero; split; apply divided_by_zero_not_finite.
Qed.

Lemma normalize_of_zero_length_witness :
  valid_binary 24 128 (x tiny_vector) = true
  /\ is_finite (x (normalize tiny_vector)) = false
  /\ is_finite (y (normalize tiny_vector)) = false.
Proof.
  split; [reflexivity |].
  apply (normalize_of_zero_length float tiny_vector false). reflexivity.
Defined.

(** Normalising the zero vector divides zero by a zero length: both
    components are NaN, at every kind. *)
Theorem normalize_zero_is_nan (Scalar : kind) :
  conv (normalize_kind Scalar) double (x (normalize (Vector2_default Scalar)))
  = S754_nan
  /\ conv (normalize_kind Scalar) double
       (y (normalize (Vector2_default Scalar)))
     = S754_nan.
Proof. each_kind Scalar; split; reflexivity. Qed.

(** ** Refraction *)

Lemma SFmul_nan_r (p e : Z) (a : spec_float) : SFmul p e a S754_nan = S754_nan.
Proof. destruct a; reflexivity. Qed.

(** A NaN index of refraction is not taken for total internal reflection:
    [k] is NaN, [k < 0.0] is false, and both components of the result are
    NaN rather than zero. *)
Theorem refract_nan_index (VType1 VType2 : kind) (F : float_format)
  (i : Vector2 VType1) (n : Vector2 VType2) :
  refract (FType := Float F) i n S754_nan
  = Compiled
      (Vector2_of double (common_type3 (Float F) VType1 VType2)
         S754_nan S754_nan).
Proof.
  destruct i as [ix iy], n as [nx ny].
  each_kind VType1; each_kind VType2; destruct F;
    cbv [refract is_floating_point common_type3 common_type VectorOpResult
         dot arith compare conv same_int fconv Vector2_of Vector2_convert
         operator_minus scalar_operator_mul piecewise x y
         std_sqrt sqrt_kind prec emax zero one add sub mul ltb];
    rewrite ?SFmul_nan_r; reflexivity.
Qed.

(** ** Conversions there and back *)

(** Converting an integer vector to an integer kind at least as wide, of
    either signedness, and back gives the vector itself. *)
Theorem int_int_round_trip (s s' : signedness) (w w' : int_width)
  (v : Vector2 (Int s w)) :
  bits w <= bits w' ->
  in_range s w (x v) -> in_range s w (y v) ->
  Vector2_convert (Int s w) (Vector2_convert (Int s' w') v) = v.
Proof.
  destruct v as [vx vy]; cbn [x y]; intros Hw Hx Hy.
  assert (E : forall z, in_range s w z ->
               conv (Int s' w') (Int s w) (conv (Int s w) (Int s' w') z) = z).
  { intros z Hz.
    destruct s, s', w, w'; cbn [conv same_int]; cbn in Hw;
      try lia; try reflexivity;
      (apply wrap_eq_of_congruent; [exact Hz |]);
      try apply wrap_congruent;
      constructor;
      match goal with
      | |- wrap ?t W64 z mod _ = _ =>
          rewrite <- (Z.mod_mod_divide (wrap t W64 z)
                        (2 ^ bits W64) (2 ^ bits W32)),
            <- (Z.mod_mod_divide z (2 ^ bits W64) (2 ^ bits W32)),
            (wrap_mod t W64 z);
            [reflexivity | |]; exists (2 ^ 32); reflexivity
      end. }
  unfold Vector2_convert; cbn [x y]. rewrite !E by assumption. reflexivity.
Qed.

Lemma int_int_round_trip_witness :
  Vector2_convert int32_t
    (Vector2_convert uint64_t (@mkVector2 int32_t (-1) 7))
  = @mkVector2 int32_t (-1) 7.
Proof.
  apply (int_int_round_trip Signed Unsigned W32 W64
           (@mkVector2 int32_t (-1) 7));
    vm_compute; first [discriminate | split; first [discriminate | reflexivity]].
Defined.

Lemma digits2_pos_bounds (m : positive) :
  2 ^ (Z.pos (digits2_pos m) - 1) <= Z.pos m < 2 ^ Z.pos (digits2_pos m).
Proof.
  induction m as [m IH | m IH |]; cbn [digits2_pos].
  - rewrite Pos2Z.inj_succ, (Pos2Z.inj_xI m).
    replace (Z.succ (Z.pos (digits2_pos m)) - 1)
      with (Z.succ (Z.pos (digits2_pos m) - 1)) by lia.
    rewrite !Z.pow_succ_r by lia.
    set (A := 2 ^ (Z.pos (digits2_pos m) - 1)) in *.
    set (B := 2 ^ Z.pos (digits2_pos m)) in *. clearbody A B. lia.
  - rewrite Pos2Z.inj_succ, (Pos2Z.inj_xO m).
    replace (Z.succ (Z.pos (digits2_pos m)) - 1)
      with (Z.succ (Z.pos (digits2_pos m) - 1)) by lia.
    rewrite !Z.pow_succ_r by lia.
    set (A := 2 ^ (Z.pos (digits2_pos m) - 1)) in *.
    set (B := 2 ^ Z.pos (digits2_pos m)) in *. clearbody A B. lia.
  - cbn. lia.
Qed.

Lemma digits2_pos_le (m : positive) (p : Z) :
  0 <= p -> Z.pos m < 2 ^ p -> Z.pos (digits2_pos m) <= p.
Proof.
  intros Hp Hm.
  destruct (digits2_pos_bounds m) as [Hlo _].
  assert (H : 2 ^ (Z.pos (digits2_pos m) - 1) < 2 ^ p) by lia.
  apply Z.pow_lt_mono_r_iff in H; lia.
Qed.

Lemma iter_xO_spec (m k : positive) :
  digits2_pos (Pos.iter xO m k) = (digits2_pos m + k)%positive
  /\ Z.pos (Pos.iter xO m k) = Z.pos m * 2 ^ Z.pos k.
Proof.
  induction k as [| k [IH1 IH2]] using Pos.peano_ind.
  - cbn [Pos.iter digits2_pos]. split; [lia | rewrite (Pos2Z.inj_xO m); lia].
  - rewrite Pos.iter_succ. cbn [digits2_pos]. rewrite IH1.
    split; [lia |].
    rewrite (Pos2Z.inj_xO (Pos.iter xO m k)), IH2, Pos2Z.inj_succ,
      Z.pow_succ_r by lia.
    lia.
Qed.

(** A mantissa already in canonical position is left alone by rounding. *)
Lemma binary_round_aux_canonical (p em : Z) (s : bool) (m : positive) (e : Z) :
  fexp p em (Z.pos (digits2_pos m) + e) = e ->
  e <= em - p ->
  binary_round_aux p em s (Z.pos m) e loc_Exact = S754_finite s m e.
Proof.
  intros Hc He.
  unfold binary_round_aux, shr_fexp.
  cbn [Zdigits2 shr_record_of_loc]. rewrite Hc, Z.sub_diag.
  cbn [shr shr_m loc_of_shr_record round_nearest_even Zdigits2
       shr_record_of_loc].
  rewrite Hc, Z.sub_diag. cbn [shr shr_m].
  replace (e <=? em - p) with true by (symmetry; apply Z.leb_le; lia).
  reflexivity.
Qed.

(** An integer of no more binary digits than the precision is a
    floating-point number: converting it rounds nothing away. *)
Lemma binary_round_small (f : float_format) (s : bool) (m : positive) :
  Z.pos m < 2 ^ prec f ->
  exists (mz : positive) (ez : Z),
    binary_round (prec f) (emax f) s m 0 = S754_finite s mz ez
    /\ ez <= 0 /\ Z.pos mz = Z.pos m * 2 ^ (- ez).
Proof.
  intros Hm.
  assert (Hf : 0 < prec f /\ 3 - emax f - prec f <= 0 /\ 0 <= emax f - prec f)
    by (destruct f; cbn; lia).
  destruct Hf as (Hp & Hemin & Hemax).
  pose proof (digits2_pos_le m (prec f) ltac:(lia) Hm) as Hd.
  unfold binary_round.
  assert (Hfe : fexp (prec f) (emax f) (Z.pos (digits2_pos m) + 0) <= 0).
  { unfold fexp, emin. lia. }
  remember (fexp (prec f) (emax f) (Z.pos (digits2_pos m) + 0)) as fe eqn:Efe.
  unfold shl_align.
  destruct (fe - 0) as [| q | q] eqn:Eq.
  - exists m, 0. split; [| split; [lia | cbn; lia]].
    apply binary_round_aux_canonical; [rewrite <- Efe; lia | lia].
  - lia.
  - destruct (iter_xO_spec m q) as [Hdig Hval].
    exists (Pos.iter xO m q), fe. split; [| split; [lia |]].
    + apply binary_round_aux_canonical; [| lia].
      rewrite Hdig, Efe, Pos2Z.inj_add.
      replace (Z.pos (digits2_pos m) + Z.pos q
               + fexp (prec f) (emax f) (Z.pos (digits2_pos m) + 0))
        with (Z.pos (digits2_pos m) + 0) by lia.
      reflexivity.
    + rewrite Hval. f_equal. f_equal. lia.
Qed.

Lemma SFtrunc_of_int (f : float_format) (z : Z) :
  Z.abs z < 2 ^ prec f ->
  SFtrunc (binary_normalize (prec f) (emax f) z 0 false) = z.
Proof.
  intros Hz.
  assert (H : forall s m, Z.pos m < 2 ^ prec f ->
               SFtrunc (binary_round (prec f) (emax f) s m 0)
               = cond_Zopp s (Z.pos m)).
  { intros s m Hm.
    destruct (binary_round_small f s m Hm) as (mz & ez & E & Hez & Hv).
    rewrite E. cbn [SFtrunc]. f_equal.
    destruct ez as [| q | q]; try lia.
    - rewrite Z.shiftl_0_r. cbn in Hv. lia.
    - change (Z.shiftl (Z.pos mz) (Z.neg q))
        with (Z.shiftr (Z.pos mz) (Z.pos q)).
      rewrite Z.shiftr_div_pow2 by lia. rewrite Hv.
      change (- Z.neg q) with (Z.pos q).
      apply Z.div_mul. apply Z.pow_nonzero; lia. }
  destruct z as [| m | m]; cbn [binary_normalize].
  - reflexivity.
  - apply (H false m). exact Hz.
  - apply (H true m). exact Hz.
Qed.

(** Converting an integer vector to a floating-point kind and back gives
    the vector itself whenever its components have no more binary digits
    than the precision of the format (24 for [float], 53 for [double]). *)
Theorem int_float_int_round_trip (s : signedness) (w : int_width)
  (f : float_format) (v : Vector2 (Int s w)) :
  in_range s w (x v) -> in_range s w (y v) ->
  Z.abs (x v) < 2 ^ prec f -> Z.abs (y v) < 2 ^ prec f ->
  Vector2_convert (Int s w) (Vector2_convert (Float f) v) = v.
Proof.
  destruct v as [vx vy]; cbn [x y]; intros Rx Ry Hx Hy.
  unfold Vector2_convert; cbn [x y conv].
  rewrite !SFtrunc_of_int by assumption.
  rewrite (wrap_small _ _ _ Rx), (wrap_small _ _ _ Ry). reflexivity.
Qed.

Lemma int_float_int_round_trip_witness :
  Vector2_convert int32_t
    (Vector2_convert double (@mkVector2 int32_t 5 (-10)))
  = @mkVector2 int32_t 5 (-10).
Proof.
  apply (int_float_int_round_trip Signed W32 Double
           (@mkVector2 int32_t 5 (-10)));
    first [reflexivity | vm_compute; split; first [discriminate | reflexivity]].
Defined.

Lemma iter_pos_nat {A : Type} (f : A -> A) (n : positive) (a : A) :
  iter_pos f n a = Nat.iter (Pos.to_nat n) f a.
Proof.
  revert a; induction n as [n IH | n IH |]; intros a; cbn [iter_pos].
  - rewrite !IH.
    replace (Pos.to_nat n~1) with (Pos.to_nat n + Pos.to_nat n + 1)%nat by lia.
    rewrite !Nat.iter_add. reflexivity.
  - rewrite !IH.
    replace (Pos.to_nat n~0) with (Pos.to_nat n + Pos.to_nat n)%nat by lia.
    rewrite Nat.iter_add. reflexivity.
  - reflexivity.
Qed.

Lemma shr_1_iter_xO (k : nat) (m : positive) :
  Nat.iter k shr_1 (Build_shr_record (Z.pos (Nat.iter k xO m)) false false)
  = Build_shr_record (Z.pos m) false false.
Proof.
  induction k as [| k IH]; [reflexivity |].
  rewrite Nat.iter_succ_r. cbn [Nat.iter shr_1 orb]. exact IH.
Qed.

Lemma shr_iter_xO (m k : positive) (e : Z) :
  shr (Build_shr_record (Z.pos (Pos.iter xO m k)) false false) e (Z.pos k)
  = (Build_shr_record (Z.pos m) false false, e + Z.pos k).
Proof.
  cbn [shr]. rewrite iter_pos_nat.
  replace (Pos.iter xO m k) with (Nat.iter (Pos.to_nat k) xO m)
    by (symmetry; apply Pos2Nat.inj_iter).
  rewrite shr_1_iter_xO. reflexivity.
Qed.

(** Widening a binary32 number to binary64 and narrowing it back. *)
Lemma fconv_round_trip (v : spec_float) :
  valid_binary (prec Single) (emax Single) v = true ->
  fconv Double Single (fconv Single Double v) = v.
Proof.
  destruct v as [s | s | | s m e]; try reflexivity.
  cbn [valid_binary prec emax]. unfold bounded, canonical_mantissa.
  intros H. apply andb_prop in H. destruct H as [Hc He].
  apply Z.eqb_eq in Hc. apply Z.leb_le in He.
  cbn [fconv prec emax].
  set (d := Z.pos (digits2_pos m)) in *.
  assert (Hlt : fexp 53 1024 (d + e) < e).
  { revert Hc. unfold fexp, emin. lia. }
  assert (Hfe : exists q, fexp 53 1024 (d + e) - e = Z.neg q).
  { destruct (fexp 53 1024 (d + e) - e) as [| q | q] eqn:Eq; try lia.
    exists q; reflexivity. }
  destruct Hfe as [q Eq].
  destruct (iter_xO_spec m q) as [Hdig Hval].
  assert (Hde : Z.pos (digits2_pos (Pos.iter xO m q)) + fexp 53 1024 (d + e)
                = d + e).
  { rewrite Hdig, Pos2Z.inj_add. fold d. lia. }
  assert (Hw : binary_round 53 1024 s m e
               = S754_finite s (Pos.iter xO m q) (fexp 53 1024 (d + e))).
  { unfold binary_round, shl_align. fold d. rewrite Eq.
    apply binary_round_aux_canonical; [rewrite Hde; reflexivity | lia]. }
  rewrite Hw.
  unfold binary_round, shl_align. rewrite Hde, Hc.
  replace (e - fexp 53 1024 (d + e)) with (Z.pos q) by lia.
  unfold binary_round_aux, shr_fexp.
  cbn [Zdigits2 shr_record_of_loc]. rewrite Hde, Hc.
  replace (e - fexp 53 1024 (d + e)) with (Z.pos q) by lia.
  rewrite shr_iter_xO.
  cbn [shr_m loc_of_shr_record round_nearest_even Zdigits2 shr_record_of_loc].
  replace (fexp 53 1024 (d + e) + Z.pos q) with e by lia.
  fold d. rewrite Hc, Z.sub_diag. cbn [shr shr_m].
  replace (e <=? 128 - 24) with true by (symmetry; apply Z.leb_le; exact He).
  reflexivity.
Qed.

(** Converting a [Vector2<float>] to [Vector2<double>] and back loses
    nothing: every single-precision number, subnormal or not, and every
    zero, infinity and NaN comes back as it was. *)
Theorem float_double_float_round_trip (v : Vector2 float) :
  valid_binary (prec Single) (emax Single) (x v) = true ->
  valid_binary (prec Single) (emax Single) (y v) = true ->
  Vector2_convert float (Vector2_convert double v) = v.
Proof.
  destruct v as [vx vy]; cbn [x y]; intros Hx Hy.
  unfold Vector2_convert; cbn [x y conv].
  rewrite !fconv_round_trip by assumption. reflexivity.
Qed.

Lemma float_double_float_round_trip_witness :
  Vector2_convert float (Vector2_convert double tiny_vector) = tiny_vector.
Proof.
  apply (float_double_float_round_trip tiny_vector); reflexivity.
Defined.

(** ** Reflection about a unit normal *)

Lemma congruent_unit (M N a c P : Z) :
  congruent M N 1 -> P = a + c * (N - 1) -> congruent M P a.
Proof.
  intros H ->. rewrite H. replace (a + c * (1 - 1)) with a by ring. reflexivity.
Qed.

Lemma unit_normal (s : signedness) (w : int_width) (nx ny : Z) :
  conv (VectorOpResult (Int s w) (Int s w)) (Int s w)
    (dot (@mkVector2 (Int s w) nx ny) (@mkVector2 (Int s w) nx ny)) = 1 ->
  congruent (2 ^ bits w) (nx * nx + ny * ny) 1.
Proof.
  intros H1. rewrite <- H1.
  destruct s, w; int_vector_ops; symmetry; strip_wraps.
Qed.

(** Reflecting an integer vector twice about the same normal gives the
    vector back, when the normal has [dot(n, n) = 1]. *)
Theorem reflect_twice (s : signedness) (w : int_width)
  (v n : Vector2 (Int s w)) :
  in_range s w (x v) -> in_range s w (y v) ->
  conv (VectorOpResult (Int s w) (Int s w)) (Int s w) (dot n n) = 1 ->
  Vector2_convert (Int s w)
    (reflect (Vector2_convert (Int s w) (reflect v n)) n)
  = v.
Proof.
  destruct v as [vx vy], n as [nx ny]; cbn [x y]; intros Hx Hy H1.
  pose proof (unit_normal s w nx ny H1) as HN.
  destruct s, w; int_vector_ops;
    f_equal; apply wrap_eq_of_congruent; try assumption; modular;
    first
      [ apply (congruent_unit _ _ _ (4 * (vx * nx + vy * ny) * nx) _ HN); ring
      | apply (congruent_unit _ _ _ (4 * (vx * nx + vy * ny) * ny) _ HN); ring ].
Qed.

Lemma reflect_twice_witness :
  Vector2_convert int32_t
    (reflect
       (Vector2_convert int32_t
          (reflect (@mkVector2 int32_t 3 (-4)) (@mkVector2 int32_t 0 (-1))))
       (@mkVector2 int32_t 0 (-1)))
  = @mkVector2 int32_t 3 (-4).
Proof.
  apply (reflect_twice Signed W32 (@mkVector2 int32_t 3 (-4))
           (@mkVector2 int32_t 0 (-1)));
    first [reflexivity | vm_compute; split; first [discriminate | reflexivity]].
Defined.

(** Reflection of an integer vector about a normal with [dot(n, n) = 1]
    keeps the squared length, [dot(r, r) = dot(v, v)], and negates the
    component along the normal, [dot(r, n) = -dot(v, n)]. *)
Theorem reflect_preserves_dot (s : signedness) (w : int_width)
  (v n : Vector2 (Int s w)) :
  let K := Int s w in
  let r := Vector2_convert K (reflect v n) in
  conv (VectorOpResult K K) K (dot n n) = 1 ->
  conv (VectorOpResult K K) K (dot r r) = conv (VectorOpResult K K) K (dot v v)
  /\ conv (VectorOpResult K K) K (dot r n)
     = neg K (conv (VectorOpResult K K) K (dot v n)).
Proof.
  destruct v as [vx vy], n as [nx ny]; cbv zeta; intros H1.
  pose proof (unit_normal s w nx ny H1) as HN.
  destruct s, w; int_vector_ops;
    (split; apply wrap_congr, congruent_mod; modular);
    first
      [ apply (congruent_unit _ _ _
                 (4 * (vx * nx + vy * ny) * (vx * nx + vy * ny)) _ HN); ring
      | apply (congruent_unit _ _ _ (- (2 * (vx * nx + vy * ny))) _ HN); ring ].
Qed.

Lemma reflect_preserves_dot_witness :
  conv (VectorOpResult int32_t int32_t) int32_t
    (dot (Vector2_convert int32_t
            (reflect (@mkVector2 int32_t 3 (-4)) (@mkVector2 int32_t 0 (-1))))
       (Vector2_convert int32_t
          (reflect (@mkVector2 int32_t 3 (-4)) (@mkVector2 int32_t 0 (-1)))))
  = conv (VectorOpResult int32_t int32_t) int32_t
      (dot (@mkVector2 int32_t 3 (-4)) (@mkVector2 int32_t 3 (-4)))
  /\ conv (VectorOpResult int32_t int32_t) int32_t
       (dot (Vector2_convert int32_t
               (reflect (@mkVector2 int32_t 3 (-4)) (@mkVector2 int32_t 0 (-1))))
          (@mkVector2 int32_t 0 (-1)))
     = neg int32_t
         (conv (VectorOpResult int32_t int32_t) int32_t
            (dot (@mkVector2 int32_t 3 (-4)) (@mkVector2 int32_t 0 (-1)))).
Proof.
  apply (reflect_preserves_dot Signed W32 (@mkVector2 int32_t 3 (-4))
           (@mkVector2 int32_t 0 (-1))).
  reflexivity.
Defined.

End geom.
